(** * stb-tester pylint plugin: a shallow embedding of [_stbt/pylint_plugin.py]

    The plugin walks an astroid syntax tree and reports four kinds of
    mistakes in stbt test scripts (E7001 .. E7004).  This file embeds the
    checker in Rocq: the regular expressions it searches with, the
    predicates over syntax nodes, the inference adapter [_infer] and the
    two visitor methods, and then states and proves the properties of the
    specification against that embedding. *)

From Stdlib Require Import String Ascii List Bool Arith Lia.
Import ListNotations.

Local Open Scope string_scope.
Local Open Scope list_scope.

(* ===================================================================== *)
(** * Python strings *)
(* ===================================================================== *)

(** A Python 2 [str] is a sequence of bytes: [string] here, and
    [list ascii] where the code scans it character by character. *)

Definition chars (s : string) : list ascii := list_ascii_of_string s.

Definition newline : ascii := "010"%char.

(** [c in s] for a one-character needle. *)
Definition char_in (c : ascii) (s : string) : bool :=
  existsb (Ascii.eqb c) (chars s).

(** [s.startswith(p)], on character lists; [Some rest] is what follows the
    prefix. *)
Fixpoint strip_prefix (p s : list ascii) : option (list ascii) :=
  match p with
  | [] => Some s
  | c :: p' =>
      match s with
      | [] => None
      | x :: s' => if Ascii.eqb x c then strip_prefix p' s' else None
      end
  end.

(** [s.split(".")]: never empty. *)
Fixpoint split_on (sep : ascii) (s : list ascii) : list (list ascii) :=
  match s with
  | [] => [[]]
  | c :: s' =>
      if Ascii.eqb c sep then [] :: split_on sep s'
      else match split_on sep s' with
           | [] => [[c]]
           | w :: ws => (c :: w) :: ws
           end
  end.

Definition split (s : string) (sep : ascii) : list string :=
  map string_of_list_ascii (split_on sep (chars s)).

(** [".".join((a, b))]. *)
Definition dot_join (a b : string) : string := a ++ "." ++ b.

(* ===================================================================== *)
(** * The fragment of Python's [re] that the plugin uses *)
(* ===================================================================== *)

Module Re.

(** One-character patterns. *)
Inductive atom : Type :=
| Lit (c : ascii)          (* a literal character, escaped or not *)
| Dot.                     (* [.]: any character except a newline *)

Inductive regex : Type :=
| One (a : atom)
| Plus (a : atom)          (* [a+] *)
| Str (w : string)         (* a run of literal characters *)
| Seq (r1 r2 : regex)
| Alt (r1 r2 : regex)      (* [r1|r2] *)
| WordBoundary             (* [\b] *)
| EndAnchor.               (* [$] *)

(** [\w] without the LOCALE and UNICODE flags: [[a-zA-Z0-9_]]. *)
Definition is_word (c : ascii) : bool :=
  let n := nat_of_ascii c in
  (((97 <=? n) && (n <=? 122)) || ((65 <=? n) && (n <=? 90)) ||
   ((48 <=? n) && (n <=? 57)) || (n =? 95))%nat.

Definition is_word_opt (c : option ascii) : bool :=
  match c with Some x => is_word x | None => false end.

Definition atom_matches (a : atom) (c : ascii) : bool :=
  match a with
  | Lit x => Ascii.eqb c x
  | Dot => negb (Ascii.eqb c newline)
  end.

(** One or more characters of class [a], then the continuation [k];
    backtracking over every split. *)
Fixpoint plus_from (a : atom) (k : option ascii -> list ascii -> bool)
         (s : list ascii) : bool :=
  match s with
  | [] => false
  | c :: s' => atom_matches a c && (k (Some c) s' || plus_from a k s')
  end.

(** [rmatch r prev s k]: [r] matches a prefix of [s] (the character
    before [s] is [prev]) and the continuation [k] accepts what is left.
    The continuation receives the character before the rest. *)
Fixpoint rmatch (r : regex) (prev : option ascii) (s : list ascii)
         (k : option ascii -> list ascii -> bool) : bool :=
  match r with
  | One a =>
      match s with
      | c :: s' => atom_matches a c && k (Some c) s'
      | [] => false
      end
  | Plus a => plus_from a k s
  | Str w =>
      match strip_prefix (chars w) s with
      | Some rest => k (last (map Some (chars w)) prev) rest
      | None => false
      end
  | Seq r1 r2 => rmatch r1 prev s (fun p t => rmatch r2 p t k)
  | Alt r1 r2 => rmatch r1 prev s k || rmatch r2 prev s k
  | WordBoundary =>
      xorb (is_word_opt prev) (is_word_opt (hd_error s)) && k prev s
  | EndAnchor =>
      (* the end of the string, or just before a newline that ends it *)
      match s with
      | [] => k prev s
      | [c] => Ascii.eqb c newline && k prev s
      | _ => false
      end
  end.

Definition accept : option ascii -> list ascii -> bool := fun _ _ => true.

(** Try a match at every position, the end of the string included. *)
Fixpoint search_from (r : regex) (prev : option ascii) (s : list ascii)
  : bool :=
  rmatch r prev s accept ||
  match s with
  | [] => false
  | c :: s' => search_from r (Some c) s'
  end.

(** The truth value of [re.search(r, s)]. *)
Definition search (r : regex) (s : string) : bool :=
  search_from r None (chars s).

End Re.

Import Re.

(** [r'.+\.png$'] *)
Definition png_re : regex :=
  Seq (Plus Dot) (Seq (One (Lit ".")) (Seq (Str "png") EndAnchor)).

(** [r"\b(is_screen_black|match|match_text|ocr|wait_until)$"] *)
Definition unused_return_re : regex :=
  Seq WordBoundary
      (Seq (Alt (Str "is_screen_black")
           (Alt (Str "match")
           (Alt (Str "match_text")
           (Alt (Str "ocr")
                (Str "wait_until")))))
           EndAnchor).

(** [r"\bwait_until"] *)
Definition wait_until_re : regex := Seq WordBoundary (Str "wait_until").

(** [r'\*'] *)
Definition star_re : regex := One (Lit "*").

(* ===================================================================== *)
(** * [os.path] (posixpath) and the file system *)
(* ===================================================================== *)

Module OsPath.

Definition slash : ascii := "/"%char.

(** [p[:p.rfind('/') + 1]] *)
Fixpoint upto_last_slash (p : list ascii) : list ascii :=
  match p with
  | [] => []
  | c :: p' =>
      let t := upto_last_slash p' in
      if Ascii.eqb c slash then c :: t
      else match t with [] => [] | _ :: _ => c :: t end
  end.

(** [head.rstrip('/')] *)
Fixpoint rstrip_slash (p : list ascii) : list ascii :=
  match p with
  | [] => []
  | c :: p' =>
      match rstrip_slash p' with
      | [] => if Ascii.eqb c slash then [] else [c]
      | t => c :: t
      end
  end.

(** [posixpath.dirname] *)
Definition dirname (p : string) : string :=
  let head := upto_last_slash (chars p) in
  string_of_list_ascii
    (match head with
     | [] => head
     | _ :: _ =>
         if forallb (Ascii.eqb slash) head then head else rstrip_slash head
     end).

Definition starts_with_slash (p : string) : bool :=
  match p with
  | String c _ => Ascii.eqb c slash
  | EmptyString => false
  end.

Definition ends_with_slash (p : string) : bool :=
  match rev (chars p) with
  | c :: _ => Ascii.eqb c slash
  | [] => false
  end.

(** [posixpath.join] of two components *)
Definition join (a b : string) : string :=
  if starts_with_slash b then b
  else if String.eqb a "" || ends_with_slash a then a ++ b
  else a ++ "/" ++ b.

End OsPath.

(** The file system as the analysis sees it: the answer of
    [os.path.isfile] for each path. *)
Definition filesystem : Type := string -> bool.

(* ===================================================================== *)
(** * Exceptions *)
(* ===================================================================== *)

Inductive exception : Type :=
| AttributeError | IndexError | ValueError | TypeError.

(** A computation that returns a value or raises. *)
Definition result (A : Type) : Type := (exception + A)%type.

Definition ret {A : Type} (a : A) : result A := inr a.
Definition raise {A : Type} (e : exception) : result A := inl e.
Definition bind {A B : Type} (c : result A) (k : A -> result B) : result B :=
  match c with
  | inl e => inl e
  | inr a => k a
  end.

Notation "x <- c ;; k" := (bind c (fun x => k))
  (at level 61, c at next level, right associativity).

(** [x in l] for a list of strings. *)
Definition str_in (x : string) (l : list string) : bool :=
  existsb (String.eqb x) l.

(** [l.index(x)]: the first position of [x], or [ValueError]. *)
Fixpoint index (x : string) (l : list string) : result nat :=
  match l with
  | [] => raise ValueError
  | y :: l' => if String.eqb y x then ret 0 else i <- index x l' ;; ret (S i)
  end.

(* ===================================================================== *)
(** * astroid: what inference produces *)
(* ===================================================================== *)

(** The class of an inferred object, as far as the plugin looks at it. *)
Inductive def_class : Type :=
| IsFunctionDef
| IsLambda
| IsClassDef
| IsConst
| IsOther (is_callable : bool).   (* instances, modules, bound methods... *)

(** [d.parent.name]: a module, a class or a function has a name; the
    block of an [if], [for], [while], [with] or [try] has no such
    attribute; an [except] handler has one that is not a string. *)
Inductive parent_name : Type :=
| Named (s : string)
| Unnamed
| NotAString.

(** A definition that an expression may denote, with the attributes the
    plugin reads: [name], [parent.name], [root().name], [argnames()]. *)
Record definition : Type := mkDef {
  def_class_of : def_class;
  def_name : string;
  def_parent_name : parent_name;
  def_root_name : string;
  def_argnames : list string
}.

(** [".".join((d.parent.name, d.name))] *)
Definition qualified_name (d : definition) : result string :=
  match def_parent_name d with
  | Named p => ret (dot_join p (def_name d))
  | Unnamed => raise AttributeError
  | NotAString => raise TypeError
  end.

(** What [infer()] yields: a definition, or astroid's [YES] for
    "could not infer". *)
Inductive inferred : Type :=
| YES
| Inferred (d : definition).

Definition is_YES (i : inferred) : bool :=
  match i with YES => true | Inferred _ => false end.

(** The run of the generator [node.infer()]: it yields objects and then
    stops, or raises at some point (at once, when nothing precedes). *)
Inductive generator : Type :=
| StopIteration
| Raise (e : exception)
| Yield (i : inferred) (rest : generator).

(** [isinstance(d, FunctionDef)] *)
Definition isinstance_FunctionDef (d : definition) : bool :=
  match def_class_of d with IsFunctionDef => true | _ => false end.

(** [d.callable()]: functions, lambdas and classes can be called, constants
    cannot, for the rest astroid decides. *)
Definition callable (d : definition) : bool :=
  match def_class_of d with
  | IsFunctionDef | IsLambda | IsClassDef => true
  | IsConst => false
  | IsOther b => b
  end.

(* ===================================================================== *)
(** * astroid: syntax nodes *)
(* ===================================================================== *)

Inductive const_value : Type :=
| VStr (s : string)
| VNum (n : nat)
| VBool (b : bool)
| VNone.

(** [node.keywords] of a call: the attribute is missing before
    astroid 1.4, and is [None] or the list of keyword arguments (of which
    only [arg] is read) from then on. *)
Inductive keywords_attr : Type :=
| NoKeywordsAttr
| Keywords (ks : option (list (option string))).

Unset Elimination Schemes.

Inductive node : Type :=
| mkNode (kind : node_kind) (parent : option node) (text : string)
         (inference : generator) (file : string)
with node_kind : Type :=
| Module
| ClassDef (ancestors : list string)        (* qname() of each ancestor *)
| FunctionDef (decoratornames : list string)
| Expr                                      (* an expression statement *)
| Assert
| Assign
| Return
| BinOp
| Lambda
| Name
| Attribute
| Call (func : node) (args : list node) (keywords : keywords_attr)
| Keyword (arg : option string)
| Const (value : const_value)
| OtherNode.

Set Elimination Schemes.

Definition n_kind (n : node) : node_kind :=
  match n with mkNode k _ _ _ _ => k end.
Definition n_parent (n : node) : option node :=
  match n with mkNode _ p _ _ _ => p end.
(** [n.as_string()] *)
Definition as_string (n : node) : string :=
  match n with mkNode _ _ t _ _ => t end.
(** [n.infer()] *)
Definition infer (n : node) : generator :=
  match n with mkNode _ _ _ g _ => g end.
(** [n.file] *)
Definition n_file (n : node) : string :=
  match n with mkNode _ _ _ _ f => f end.

(** [n.root()]: follow [parent] to the top. *)
Fixpoint root (n : node) : node :=
  match n with
  | mkNode _ (Some p) _ _ _ => root p
  | mkNode _ None _ _ _ => n
  end.

(** [isinstance(p, C)] for [p = n.parent], which may be [None]. *)
Definition isinstance (p : option node) (C : node_kind -> bool) : bool :=
  match p with
  | Some q => C (n_kind q)
  | None => false
  end.

Definition is_Expr (k : node_kind) : bool :=
  match k with Expr => true | _ => false end.
Definition is_BinOp (k : node_kind) : bool :=
  match k with BinOp => true | _ => false end.
Definition is_Call (k : node_kind) : bool :=
  match k with Call _ _ _ => true | _ => false end.
Definition is_Keyword (k : node_kind) : bool :=
  match k with Keyword _ => true | _ => false end.

(* ===================================================================== *)
(** * The checker *)
(* ===================================================================== *)

Inductive msgid : Type := E7001 | E7002 | E7003 | E7004.

Record message : Type := mkMessage {
  msg_id : msgid;
  msg_node : node;
  msg_args : string
}.

(** The checker's state: the messages added so far, oldest first. *)
Definition StbtChecker : Type := list message.

(** How a visit ends: it returns or it raises, and either way the checker
    holds the messages added up to that point. *)
Definition outcome : Type := (result unit * StbtChecker)%type.

Definition done (self : StbtChecker) : outcome := (ret tt, self).

Definition failed (e : exception) (self : StbtChecker) : outcome :=
  (raise e, self).

(** Evaluate [c], which adds no message, and go on with its value; when
    it raises, the visit ends there. *)
Definition eval {A : Type} (c : result A) (self : StbtChecker)
           (k : A -> outcome) : outcome :=
  match c with
  | inl e => failed e self
  | inr a => k a
  end.

(** One statement after another: the second runs on the checker that the
    first leaves, unless the first raised. *)
Definition and_then (o : outcome) (k : StbtChecker -> outcome) : outcome :=
  match o with
  | (inr _, self) => k self
  | (inl e, self) => failed e self
  end.

(** A [for] loop whose body may add messages and may raise. *)
Fixpoint for_each {A : Type} (body : StbtChecker -> A -> outcome)
         (l : list A) (self : StbtChecker) : outcome :=
  match l with
  | [] => done self
  | x :: l' => and_then (body self x) (for_each body l')
  end.

(** [self.add_message(id, node=node, args=args)] *)
Definition add_message (self : StbtChecker) (id : msgid) (n : node)
           (args : string) : StbtChecker :=
  self ++ [mkMessage id n args].

(** ** [_infer] *)

(** The body of [_infer] run against the generator [node.infer()]: [YES]
    is skipped, everything else is yielded, and an exception ends the
    sequence. *)
Fixpoint _infer_loop (g : generator) : list definition :=
  match g with
  | StopIteration => []
  | Raise _ => []                              (* except Exception: pass *)
  | Yield YES rest => _infer_loop rest         (* continue *)
  | Yield (Inferred d) rest => d :: _infer_loop rest
  end.

Definition _infer (n : node) : list definition := _infer_loop (infer n).

(** ** Predicates *)

(** The [for] loop of [_is_function_named]: the qualified name is built
    for each function definition in turn, outside the [try] of [_infer],
    so a parent without a name ends the loop with an exception. *)
Fixpoint _is_function_named_loop (l : list definition) (name : string)
  : result bool :=
  match l with
  | [] => ret false
  | funcdef :: l' =>
      if isinstance_FunctionDef funcdef then
        qualified <- qualified_name funcdef ;;
        if String.eqb qualified name then ret true
        else _is_function_named_loop l' name
      else _is_function_named_loop l' name
  end.

Definition _is_function_named (func : node) (name : string) : result bool :=
  if String.eqb (as_string func) name then ret true
  else _is_function_named_loop (_infer func) name.

(** The [for] loop of [_is_callable]: whether it returned [True], and
    [failed_to_infer] when it ended. *)
Fixpoint _is_callable_loop (l : list definition) (failed_to_infer : bool)
  : bool * bool :=
  match l with
  | [] => (false, failed_to_infer)
  | inferred :: l' =>
      if callable inferred then (true, false) else _is_callable_loop l' false
  end.

Definition _is_callable (n : node) : result bool :=
  let '(returned, failed_to_infer) := _is_callable_loop (_infer n) true in
  if returned then ret true
  else if failed_to_infer then
    match n_kind n with
    | Call func _ _ =>
        named <- _is_function_named func "functools.partial" ;;
        if named then ret true else ret false
    | _ => ret false
    end
  else ret false.

Fixpoint _in_frameobject (n : node) : bool :=
  match n with
  | mkNode kind parent _ _ _ =>
      if match kind with
         | ClassDef ancestors => str_in "stbt.FrameObject" ancestors
         | _ => false
         end
      then true
      else match parent with
           | Some p => _in_frameobject p
           | None => false
           end
  end.

Fixpoint _in_property (n : node) : bool :=
  match n with
  | mkNode kind parent _ _ _ =>
      if match kind with
         | FunctionDef decoratornames =>
             str_in "__builtin__.property" decoratornames
         | _ => false
         end
      then true
      else match parent with
           | Some p => _in_property p
           | None => false
           end
  end.

Definition _is_calculated_value (n : node) : bool :=
  isinstance (n_parent n) is_BinOp ||
  match n_parent n with
  | Some p =>
      match n_kind p with
      | Call func _ _ =>
          String.eqb (last (split (as_string func) ".") "") "join"
      | _ => false
      end
  | None => false
  end.

(** [re.search(r'\*', node.value)]; [re.search] wants a string. *)
Definition _is_pattern_value (n : node) : result bool :=
  match n_kind n with
  | Const (VStr s) => ret (search star_re s)
  | Const _ => raise TypeError
  | _ => raise AttributeError
  end.

Definition _is_whitelisted_name (filename : string) : bool :=
  String.eqb filename "screenshot.png".

Definition whitelisted_functions : list string :=
  ["cv2.imwrite"; "re.match"; "re.search"; "stbt.save_frame";
   "_stbt.core.save_frame"].

(** [any(_is_function_named(func, x) for x in names)]: the names are
    tried in order, up to the first that answers true or raises. *)
Fixpoint any_function_named (func : node) (names : list string)
  : result bool :=
  match names with
  | [] => ret false
  | x :: names' =>
      named <- _is_function_named func x ;;
      if named then ret true else any_function_named func names'
  end.

Definition _in_whitelisted_functions (n : node) : result bool :=
  match n_parent n with
  | Some p =>
      match n_kind p with
      | Call func _ _ => any_function_named func whitelisted_functions
      | _ => ret false
      end
  | None => ret false
  end.

Definition _file_exists (isfile : filesystem) (filename : string) (n : node)
  : bool :=
  if isfile (OsPath.join (OsPath.dirname (n_file (root n))) filename)
  then true else false.

(** ** The visitors *)

Definition visit_const (isfile : filesystem) (self : StbtChecker) (n : node)
  : outcome :=
  match n_kind n with
  | Const value =>
      match value with
      | VStr s =>                              (* isinstance(node.value, str) *)
          if search png_re s && negb (char_in newline s) &&
             negb (_is_calculated_value n)
          then
            eval (_is_pattern_value n) self (fun pattern =>
            if negb pattern && negb (_is_whitelisted_name s) then
              eval (_in_whitelisted_functions n) self (fun whitelisted =>
              if negb whitelisted && negb (_file_exists isfile s n)
              then done (add_message self E7001 n s)
              else done self)
            else done self)
          else done self
      | _ => done self
      end
  | _ => failed AttributeError self            (* no attribute [value] *)
  end.

(** [[k.arg for k in keywords]], or before astroid 1.4
    [[a.arg for a in node.args if isinstance(a, Keyword)]]. *)
Definition keyword_names (args : list node) (keywords : keywords_attr)
  : list (option string) :=
  match keywords with
  | Keywords ks => match ks with Some l => l | None => [] end
  | NoKeywordsAttr =>
      flat_map (fun a => match n_kind a with
                         | Keyword arg => [arg]
                         | _ => []
                         end) args
  end.

(** ["frame" in kwargs] *)
Definition name_in (x : string) (kwargs : list (option string)) : bool :=
  existsb (fun k => match k with
                    | Some y => String.eqb x y
                    | None => false
                    end) kwargs.

Definition in_stbt (d : definition) : bool :=
  str_in (def_root_name d) ["stbt"; "_stbt.core"].

Definition visit_callfunc (self : StbtChecker) (n : node) : outcome :=
  match n_kind n with
  | Call func node_args keywords =>
      (* E7002 *)
      let self :=
        if search unused_return_re (as_string func) then
          if isinstance (n_parent n) is_Expr then
            fold_left
              (fun self inferred =>
                 if in_stbt inferred
                 then add_message self E7002 n (as_string func)
                 else self)
              (_infer func) self
          else self
        else self in
      and_then
        (* E7003 *)
        (if search wait_until_re (as_string func) then
           match node_args with
           | [] => done self
           | _ :: _ =>
               eval (match nth_error node_args 0 with
                     | Some a => ret a
                     | None => raise IndexError
                     end) self (fun arg =>
               eval (_is_callable arg) self (fun is_callable =>
               if negb is_callable
               then done (add_message self E7003 n (as_string arg))
               else done self))
           end
         else done self)
        (* E7004 *)
        (fun self =>
           if _in_frameobject n && _in_property n then
             for_each
               (fun self funcdef =>
                  if isinstance_FunctionDef funcdef &&
                     negb (is_YES (Inferred funcdef)) &&
                     str_in "frame" (def_argnames funcdef)
                  then
                    eval (index "frame" (def_argnames funcdef)) self (fun i =>
                    let args :=
                      filter (fun a => negb (is_Keyword (n_kind a)))
                             node_args in
                    let kwargs := keyword_names node_args keywords in
                    if (length args <=? i)%nat &&
                       negb (name_in "frame" kwargs)
                    then done (add_message self E7004 n (as_string n))
                    else done self)
                  else done self)
               (_infer func) self
           else done self)
  | _ => failed AttributeError self            (* no attribute [func] *)
  end.

(** pylint's walker: a node is handed to the [visit_] method of its class,
    and a class without one is passed over. *)
Definition visit (isfile : filesystem) (self : StbtChecker) (n : node)
  : outcome :=
  match n_kind n with
  | Const _ => visit_const isfile self n
  | Call _ _ _ => visit_callfunc self n
  | _ => done self
  end.

(* ===================================================================== *)
(** * The vocabulary of the specification *)
(* ===================================================================== *)

(** [s] ends with [suffix]. *)
Definition ends_with (suffix s : string) : Prop :=
  exists pre, s = (pre ++ suffix)%string.

(** [s] ends with [suffix] and has at least one character before it. *)
Definition ends_with_after_char (suffix s : string) : Prop :=
  exists pre c, s = (pre ++ String c suffix)%string.

Definition last_char (s : string) : option ascii :=
  last (map Some (chars s)) None.

(** A word may start right after [pre]: [pre] is empty or its last
    character is not a word character. *)
Definition word_start (pre : string) : bool :=
  negb (is_word_opt (last_char pre)).

(** The functions that report failure through their return value. *)
Definition return_value_names : list string :=
  ["is_screen_black"; "match"; "match_text"; "ocr"; "wait_until"].

(** The text ends with one of the names. *)
Definition ends_with_name (s : string) : Prop :=
  exists pre w, s = (pre ++ w)%string /\ In w return_value_names.

(** The text ends with one of the names, and the name is a whole word. *)
Definition ends_with_whole_name (s : string) : Prop :=
  exists pre w, s = (pre ++ w)%string /\ In w return_value_names /\
                word_start pre = true.

(** The text contains [wait_until] at the start of a word. *)
Definition has_wait_until_token (s : string) : Prop :=
  exists pre post,
    s = (pre ++ "wait_until" ++ post)%string /\ word_start pre = true.

(** A node followed by its ancestors, innermost first. *)
Fixpoint lineage (n : node) : list node :=
  match n with
  | mkNode _ parent _ _ _ =>
      n :: match parent with
           | Some p => lineage p
           | None => []
           end
  end.

(** The specification's reading of [in_property]: the first function
    definition met on the way up decides. *)
Fixpoint in_property_first_found (n : node) : bool :=
  match n with
  | mkNode kind parent _ _ _ =>
      match kind with
      | FunctionDef decoratornames =>
          str_in "__builtin__.property" decoratornames
      | _ => match parent with
             | Some p => in_property_first_found p
             | None => false
             end
      end
  end.

(** The specification's reading of [in_marker_class]: the first class
    definition met on the way up decides. *)
Fixpoint in_marker_class_first_found (n : node) : bool :=
  match n with
  | mkNode kind parent _ _ _ =>
      match kind with
      | ClassDef ancestors => str_in "stbt.FrameObject" ancestors
      | _ => match parent with
             | Some p => in_marker_class_first_found p
             | None => false
             end
      end
  end.

(** What a generator yields before it stops or raises. *)
Fixpoint yielded (g : generator) : list inferred :=
  match g with
  | StopIteration | Raise _ => []
  | Yield i rest => i :: yielded rest
  end.

(** The generator ends with an exception. *)
Fixpoint raises (g : generator) : bool :=
  match g with
  | StopIteration => false
  | Raise _ => true
  | Yield _ rest => raises rest
  end.

Definition msgid_eqb (a b : msgid) : bool :=
  match a, b with
  | E7001, E7001 | E7002, E7002 | E7003, E7003 | E7004, E7004 => true
  | _, _ => false
  end.

(** The messages of one rule among [l]. *)
Definition of_rule (id : msgid) (l : list message) : list message :=
  filter (fun m => msgid_eqb (msg_id m) id) l.

(** The conjunction under which [visit_const] reports a string literal
    [s]; [suffix_ok] is the test on the literal's ending. *)
Definition missing_image_conditions (suffix_ok : string -> Prop)
           (isfile : filesystem) (n : node) (s : string) : Prop :=
  suffix_ok s /\
  char_in newline s = false /\
  _is_calculated_value n = false /\
  _is_pattern_value n = ret false /\
  _is_whitelisted_name s = false /\
  _in_whitelisted_functions n = ret false /\
  _file_exists isfile s n = false.

(** The positional arguments of a call. *)
Definition positional (args : list node) : list node :=
  filter (fun a => negb (is_Keyword (n_kind a))) args.

(** The call does not supply the [frame] parameter of [d]. *)
Definition frame_not_supplied (args : list node) (keywords : keywords_attr)
           (d : definition) : bool :=
  isinstance_FunctionDef d &&
  match index "frame" (def_argnames d) with
  | inr i => (length (positional args) <=? i)%nat &&
             negb (name_in "frame" (keyword_names args keywords))
  | inl _ => false
  end.

(** What each of the three checks of [visit_callfunc] adds for the call
    [n] of [func] with [args] and [keywords]. *)
Definition unused_return_messages (n func : node) : list message :=
  if search unused_return_re (as_string func) &&
     isinstance (n_parent n) is_Expr
  then repeat (mkMessage E7002 n (as_string func))
              (length (filter in_stbt (_infer func)))
  else [].

Definition wait_until_messages (n func : node) (args : list node)
  : result (list message) :=
  if search wait_until_re (as_string func) then
    match args with
    | [] => ret []
    | arg :: _ =>
        is_callable <- _is_callable arg ;;
        ret (if is_callable then []
             else [mkMessage E7003 n (as_string arg)])
    end
  else ret [].

Definition frame_messages (n func : node) (args : list node)
           (keywords : keywords_attr) : list message :=
  if _in_frameobject n && _in_property n
  then repeat (mkMessage E7004 n (as_string n))
              (length (filter (frame_not_supplied args keywords)
                              (_infer func)))
  else [].

(** All that a visit of the call adds: the E7002 messages, and when the
    second check does not raise, its message and the E7004 messages. *)
Definition call_messages (n func : node) (args : list node)
           (keywords : keywords_attr) : list message :=
  unused_return_messages n func ++
  match wait_until_messages n func args with
  | inr added => added ++ frame_messages n func args keywords
  | inl _ => []
  end.

(** [func] is identified as [name], by its text or by a function
    definition it resolves to. *)
Definition identified_as (func : node) (name : string) : Prop :=
  as_string func = name \/
  exists d, In d (_infer func) /\ isinstance_FunctionDef d = true /\
            qualified_name d = ret name.

(** The loop of [_is_function_named] gets past the candidates [l]: each
    function definition among them has a qualified name, other than
    [name]. *)
Definition passes (name : string) (l : list definition) : Prop :=
  forall d, In d l -> isinstance_FunctionDef d = true ->
            exists q, qualified_name d = ret q /\ q <> name.

(** The loop of [_is_function_named] stops at a function definition of
    [l] whose qualified name evaluates to [r], having got past the
    candidates before it. *)
Definition stops_with (name : string) (l : list definition)
           (r : result string) : Prop :=
  exists before d after,
    l = before ++ d :: after /\ passes name before /\
    isinstance_FunctionDef d = true /\ qualified_name d = r.

(** Every function definition among [l] has a parent with a name. *)
Definition named_parents (l : list definition) : Prop :=
  forall d, In d l -> isinstance_FunctionDef d = true ->
            exists p, def_parent_name d = Named p.

(** The [any] of [_in_whitelisted_functions] over [names] ends at one of
    the names: [_is_function_named] returned false for the names before
    it, and on that name it ends with [r]. *)
Definition ends_at_name (func : node) (names : list string)
           (r : result bool) : Prop :=
  exists before x after,
    names = before ++ x :: after /\
    (forall y, In y before -> _is_function_named func y = ret false) /\
    _is_function_named func x = r.

(* ===================================================================== *)
(** * Sample syntax trees *)
(* ===================================================================== *)

Module Samples.

Definition test_py : string := "/tests/test.py".

Definition nothing_on_disk : filesystem := fun _ => false.

Definition only (path : string) : filesystem := String.eqb path.

Definition module_node : node :=
  mkNode Module None "" StopIteration test_py.

(** A statement of the module. *)
Definition stmt (k : node_kind) (text : string) : node :=
  mkNode k (Some module_node) text StopIteration test_py.

Definition const_def : definition :=
  mkDef IsConst "" (Named "test") "test" [].

(** A string literal under [parent]; a constant infers to itself. *)
Definition str_const (s : string) (parent : option node) : node :=
  mkNode (Const (VStr s)) parent ("'" ++ s ++ "'")
         (Yield (Inferred const_def) StopIteration) test_py.

Definition num_const (k : nat) (text : string) : node :=
  mkNode (Const (VNum k)) None text
         (Yield (Inferred const_def) StopIteration) test_py.

(** [image = ".png"] *)
Definition bare_png : node :=
  str_const ".png" (Some (stmt Assign "image = '.png'")).

(** [image = "missing.png"] *)
Definition missing_png : node :=
  str_const "missing.png" (Some (stmt Assign "image = 'missing.png'")).

(** [def match(image, frame=None, match_parameters=None, region=...)]
    of [_stbt/core.py]. *)
Definition core_match : definition :=
  mkDef IsFunctionDef "match" (Named "_stbt.core") "_stbt.core"
        ["image"; "frame"; "match_parameters"; "region"].

(** The same function seen through the module [stbt]. *)
Definition stbt_match : definition :=
  mkDef IsFunctionDef "match" (Named "stbt") "stbt"
        ["image"; "frame"; "match_parameters"; "region"].

Definition core_wait_until : definition :=
  mkDef IsFunctionDef "wait_until" (Named "_stbt.core") "_stbt.core"
        ["callable_"; "timeout_secs"; "interval_secs"].

(** An expression with the given text and inference run. *)
Definition expr (k : node_kind) (text : string) (g : generator) : node :=
  mkNode k None text g test_py.

Definition one (d : definition) : generator :=
  Yield (Inferred d) StopIteration.

Definition two (d1 d2 : definition) : generator :=
  Yield (Inferred d1) (Yield (Inferred d2) StopIteration).

(** A call [text] of [func] with [args], under [parent]. *)
Definition call (func : node) (args : list node) (text : string)
           (parent : node) : node :=
  mkNode (Call func args (Keywords None)) (Some parent) text
         (Yield YES StopIteration) test_py.

(** [stbt.match("a.png")] as a statement, where [stbt.match] resolves
    to two definitions. *)
Definition bare_match_two : node :=
  call (expr Attribute "stbt.match" (two stbt_match core_match))
       [str_const "a.png" None] "stbt.match('a.png')"
       (stmt Expr "stbt.match('a.png')").

(** [stbt.match("a.png")] as a statement. *)
Definition bare_match : node :=
  call (expr Attribute "stbt.match" (one core_match))
       [str_const "a.png" None] "stbt.match('a.png')"
       (stmt Expr "stbt.match('a.png')").

(** [assert stbt.match("a.png")] *)
Definition asserted_match : node :=
  call (expr Attribute "stbt.match" (one core_match))
       [str_const "a.png" None] "stbt.match('a.png')"
       (stmt Assert "assert stbt.match('a.png')").

(** [my_match("a.png")] as a statement, after [my_match = stbt.match]. *)
Definition bare_my_match : node :=
  call (expr Name "my_match" (one core_match))
       [str_const "a.png" None] "my_match('a.png')"
       (stmt Expr "my_match('a.png')").

(** [stbt.wait_until("a.png")] as a statement. *)
Definition wait_until_str : node :=
  call (expr Attribute "stbt.wait_until" (one core_wait_until))
       [str_const "a.png" None] "stbt.wait_until('a.png')"
       (stmt Assert "assert stbt.wait_until('a.png')").

Definition lambda_def : definition :=
  mkDef IsLambda "" (Named "test") "test" [].

(** [assert stbt.wait_until(lambda: True)] *)
Definition wait_until_lambda : node :=
  call (expr Attribute "stbt.wait_until" (one core_wait_until))
       [expr Lambda "lambda: True" (one lambda_def)]
       "stbt.wait_until(lambda: True)"
       (stmt Assert "assert stbt.wait_until(lambda: True)").

(** [class Dialog(stbt.FrameObject)] *)
Definition frame_object_class : node :=
  stmt (ClassDef ["stbt.FrameObject"; "__builtin__.object"]) "class Dialog".

Definition under (k : node_kind) (text : string) (parent : node) : node :=
  mkNode k (Some parent) text StopIteration test_py.

(** [@property def is_visible(self)] in [Dialog]. *)
Definition property_def : node :=
  under (FunctionDef ["__builtin__.property"]) "def is_visible"
        frame_object_class.

Definition return_in_property : node :=
  under Return "return stbt.match('a.png')" property_def.

(** [return stbt.match("a.png")] in the property. *)
Definition match_in_property : node :=
  call (expr Attribute "stbt.match" (one core_match))
       [str_const "a.png" None] "stbt.match('a.png')" return_in_property.

(** The same, where [stbt.match] resolves to two definitions. *)
Definition match_in_property_two : node :=
  call (expr Attribute "stbt.match" (two stbt_match core_match))
       [str_const "a.png" None] "stbt.match('a.png')" return_in_property.

(** [return stbt.match("a.png", frame=self._frame)] in the property. *)
Definition match_with_frame : node :=
  mkNode (Call (expr Attribute "stbt.match" (one core_match))
               [str_const "a.png" None] (Keywords (Some [Some "frame"])))
         (Some return_in_property)
         "stbt.match('a.png', frame=self._frame)"
         (Yield YES StopIteration) test_py.

(** A helper function defined inside the property, and a call in it. *)
Definition helper_in_property : node :=
  under (FunctionDef []) "def helper" property_def.

Definition match_in_helper : node :=
  call (expr Attribute "stbt.match" (one core_match))
       [str_const "a.png" None] "stbt.match('a.png')"
       (under Return "return stbt.match('a.png')" helper_in_property).

(** A plain class defined inside the property of [Dialog], with a
    method, and a call in it. *)
Definition plain_class_in_dialog : node :=
  under (ClassDef ["__builtin__.object"]) "class Row" property_def.

Definition match_in_plain_class : node :=
  call (expr Attribute "stbt.match" (one core_match))
       [str_const "a.png" None] "stbt.match('a.png')"
       (under Return "return stbt.match('a.png')"
              (under (FunctionDef []) "def cell" plain_class_in_dialog)).

(** An expression whose inference yields one definition and then
    fails. *)
Definition half_inferred : node :=
  expr Name "match" (Yield (Inferred core_match) (Raise TypeError)).

(** [stbt.match("a.png")] as a statement, with [stbt] unresolvable. *)
Definition unresolved_match : node :=
  call (expr Attribute "stbt.match" (Raise AttributeError))
       [str_const "a.png" None] "stbt.match('a.png')"
       (stmt Expr "stbt.match('a.png')").

(** [wait_until(functools.partial(f, 1))], the argument not inferred. *)
Definition partial_call : node :=
  expr (Call (expr Attribute "functools.partial" (Yield YES StopIteration))
             [expr Name "f" StopIteration; num_const 1 "1"] (Keywords None))
       "functools.partial(f, 1)" (Yield YES StopIteration).

End Samples.

(* ===================================================================== *)
(** * Further vocabulary and samples *)
(* ===================================================================== *)

(** The text ends with one of the names as a whole word, possibly followed
    by one final newline (which [$] lets pass). *)
Definition matches_return_value_name (s : string) : Prop :=
  exists pre w tail,
    s = (pre ++ w ++ tail)%string /\ In w return_value_names /\
    word_start pre = true /\ (tail = "" \/ tail = String newline "").

(** [a.arg] of a keyword argument node. *)
Definition keyword_arg (a : node) : option string :=
  match n_kind a with
  | Keyword arg => arg
  | _ => None
  end.

Module MoreSamples.

Import Samples.

(** [os.path.join(d, "missing.png")]: the literal under the call. *)
Definition joined_png : node :=
  str_const "missing.png"
    (Some (call (expr Attribute "os.path.join" (Yield YES StopIteration))
                [expr Name "d" StopIteration; str_const "missing.png" None]
                "os.path.join(d, 'missing.png')"
                (stmt Assign "p = os.path.join(d, 'missing.png')"))).

(** [images = "images/*.png"] *)
Definition glob_png : node :=
  str_const "images/*.png" (Some (stmt Assign "images = 'images/*.png'")).

Definition core_save_frame : definition :=
  mkDef IsFunctionDef "save_frame" (Named "_stbt.core") "_stbt.core"
        ["image"; "filename"].

(** [save_frame(frame, "out.png")] after [from stbt import save_frame]:
    the literal under the call. *)
Definition saved_png : node :=
  str_const "out.png"
    (Some (call (expr Name "save_frame" (one core_save_frame))
                [expr Name "frame" StopIteration; str_const "out.png" None]
                "save_frame(frame, 'out.png')"
                (stmt Expr "save_frame(frame, 'out.png')"))).

(** [assert wait_until(check)], where [check] cannot be inferred. *)
Definition wait_until_unresolved : node :=
  call (expr Name "wait_until" (one core_wait_until))
       [expr Name "check" (Raise AttributeError)]
       "wait_until(check)" (stmt Assert "assert wait_until(check)").

(** [assert wait_until(functools.partial(f, 1))] *)
Definition wait_until_partial : node :=
  call (expr Name "wait_until" (one core_wait_until))
       [partial_call]
       "wait_until(functools.partial(f, 1))"
       (stmt Assert "assert wait_until(functools.partial(f, 1))").

(** The keyword argument [frame=self._frame] as a node of the argument
    list, as astroid gave it before version 1.4. *)
Definition frame_keyword : node :=
  expr (Keyword (Some "frame")) "frame=self._frame" StopIteration.

(** [def load(name)] written under an [if]: its parent is the [if]
    block, which has no name. *)
Definition load_under_if : definition :=
  mkDef IsFunctionDef "load" Unnamed "test" ["name"].

Definition load_name : node := expr Name "load" (one load_under_if).

(** [load(y)]: a call that cannot be inferred. *)
Definition load_call : node :=
  expr (Call load_name [expr Name "y" StopIteration] (Keywords None))
       "load(y)" (Yield YES StopIteration).

(** [image = load("a.png")]: the literal under the call. *)
Definition loaded_png : node :=
  str_const "a.png"
    (Some (call load_name [str_const "a.png" None] "load('a.png')"
                (stmt Assign "image = load('a.png')"))).

(** [stbt.wait_until(load(y))] as a statement. *)
Definition wait_until_load : node :=
  call (expr Attribute "stbt.wait_until" (one core_wait_until))
       [load_call] "stbt.wait_until(load(y))"
       (stmt Expr "stbt.wait_until(load(y))").

(** [assert foo.wait_until(load(y))], with [foo] unresolvable. *)
Definition foo_wait_until_load : node :=
  call (expr Attribute "foo.wait_until" (Raise AttributeError))
       [load_call] "foo.wait_until(load(y))"
       (stmt Assert "assert foo.wait_until(load(y))").

(** [def wait_until_visible(check, frame=None)] of the test script. *)
Definition wait_until_visible : definition :=
  mkDef IsFunctionDef "wait_until_visible" (Named "test") "test"
        ["check"; "frame"].

(** [return wait_until_visible(load(y))] in the property of [Dialog]. *)
Definition wait_until_visible_load : node :=
  call (expr Name "wait_until_visible" (one wait_until_visible))
       [load_call] "wait_until_visible(load(y))" return_in_property.

Definition functools_partial : definition :=
  mkDef IsFunctionDef "partial" (Named "functools") "functools"
        ["func"].

(** [bind(f, 1)], a call that cannot be inferred, where [bind] resolves
    to the function under the [if] and to [functools.partial]. *)
Definition bind_call : node :=
  expr (Call (expr Name "bind" (two load_under_if functools_partial))
             [expr Name "f" StopIteration; num_const 1 "1"] (Keywords None))
       "bind(f, 1)" (Yield YES StopIteration).

(** [save(frame, "out.png")], where [save] resolves to the function under
    the [if] and to [_stbt.core.save_frame]: the literal under the call. *)
Definition save_after_unnamed_png : node :=
  str_const "out.png"
    (Some (call (expr Name "save" (two load_under_if core_save_frame))
                [expr Name "frame" StopIteration; str_const "out.png" None]
                "save(frame, 'out.png')"
                (stmt Expr "save(frame, 'out.png')"))).

End MoreSamples.

(* ===================================================================== *)
(** * Sample runs *)
(* ===================================================================== *)

Example png_re_samples :
  search png_re "a.png" = true /\
  search png_re "images/.png" = true /\
  search png_re ".png" = false /\
  search png_re "a.png.jpg" = false /\
  search png_re ("a.png" ++ String newline "") = true /\
  search png_re (String newline ".png") = false.
Proof. repeat split. Qed.

Example unused_return_re_samples :
  search unused_return_re "stbt.match" = true /\
  search unused_return_re "match_text" = true /\
  search unused_return_re "wait_until" = true /\
  search unused_return_re "rematch" = false /\
  search unused_return_re "my_wait_until" = false /\
  search unused_return_re "stbt.match_all" = false.
Proof. repeat split. Qed.

Example wait_until_re_samples :
  search wait_until_re "stbt.wait_until" = true /\
  search wait_until_re "wait_until_gone" = true /\
  search wait_until_re "await_until" = false /\
  search wait_until_re "do_wait_until" = false.
Proof. repeat split. Qed.

Example split_samples :
  split "os.path.join" "." = ["os"; "path"; "join"] /\
  split "join" "." = ["join"] /\
  split "" "." = [""] /\
  split "a." "." = ["a"; ""].
Proof. repeat split. Qed.

Example os_path_samples :
  OsPath.dirname "/tests/test.py" = "/tests" /\
  OsPath.dirname "test.py" = "" /\
  OsPath.dirname "/test.py" = "/" /\
  OsPath.join "/tests" "missing.png" = "/tests/missing.png" /\
  OsPath.join "" "missing.png" = "missing.png" /\
  OsPath.join "/tests" "/abs/missing.png" = "/abs/missing.png".
Proof. repeat split. Qed.

Example _is_callable_samples :
  _is_callable Samples.partial_call = ret true /\
  _is_callable (Samples.str_const "a.png" None) = ret false /\
  _is_callable (Samples.expr Name "f" StopIteration) = ret false /\
  _is_callable (Samples.expr Name "f" (Samples.one Samples.core_match)) =
  ret true /\
  _is_callable MoreSamples.load_call = raise AttributeError.
Proof. repeat split. Qed.

Example visit_callfunc_samples :
  visit_callfunc [] Samples.bare_match =
  done [mkMessage E7002 Samples.bare_match "stbt.match"] /\
  visit_callfunc [] Samples.asserted_match = done [] /\
  visit_callfunc [] Samples.unresolved_match = done [] /\
  visit_callfunc [] Samples.match_with_frame = done [] /\
  visit_callfunc [] Samples.wait_until_lambda = done [] /\
  visit_callfunc [] (Samples.stmt Expr "x") = failed AttributeError [] /\
  visit_callfunc [] MoreSamples.wait_until_load =
  failed AttributeError
         [mkMessage E7002 MoreSamples.wait_until_load "stbt.wait_until"] /\
  visit_callfunc [] MoreSamples.foo_wait_until_load =
  failed AttributeError [].
Proof. repeat split. Qed.

Example visit_const_samples :
  visit_const Samples.nothing_on_disk [] Samples.missing_png =
  done [mkMessage E7001 Samples.missing_png "missing.png"] /\
  visit_const Samples.nothing_on_disk [] MoreSamples.saved_png = done [] /\
  visit_const Samples.nothing_on_disk [] MoreSamples.loaded_png =
  failed AttributeError [] /\
  visit_const Samples.nothing_on_disk [] MoreSamples.save_after_unnamed_png =
  failed AttributeError [].
Proof. repeat split. Qed.

(* ===================================================================== *)
(** * Strings and lists *)
(* ===================================================================== *)

Lemma chars_app (a b : string) : chars (a ++ b) = chars a ++ chars b.
Proof.
  unfold chars. induction a as [|c a IH]; simpl; [reflexivity|].
  now rewrite IH.
Qed.

Lemma string_of_chars (s : string) : string_of_list_ascii (chars s) = s.
Proof. apply string_of_list_ascii_of_string. Qed.

Lemma chars_of_string (l : list ascii) : chars (string_of_list_ascii l) = l.
Proof. apply list_ascii_of_string_of_list_ascii. Qed.

Lemma chars_inj (a b : string) : chars a = chars b -> a = b.
Proof.
  intros H. rewrite <- (string_of_chars a), <- (string_of_chars b).
  now rewrite H.
Qed.

Lemma last_cons {A : Type} (x : A) (l : list A) (d : A) :
  last (x :: l) d = last l x.
Proof.
  revert x d. induction l as [|y l IH]; intros x d; [reflexivity|].
  change (last (x :: y :: l) d) with (last (y :: l) d).
  now rewrite (IH y d), (IH y x).
Qed.

Lemma strip_prefix_app (p s : list ascii) : strip_prefix p (p ++ s) = Some s.
Proof.
  induction p as [|c p IH]; simpl; [reflexivity|].
  now rewrite Ascii.eqb_refl.
Qed.

Lemma strip_prefix_inv (p s r : list ascii) :
  strip_prefix p s = Some r -> s = p ++ r.
Proof.
  revert s. induction p as [|c p IH]; intros s H; simpl in *.
  - now inversion H.
  - destruct s as [|x s]; [discriminate|].
    destruct (Ascii.eqb_spec x c) as [->|]; [|discriminate].
    now rewrite (IH _ H).
Qed.

Lemma char_in_false (c : ascii) (s : string) :
  char_in c s = false <-> ~ In c (chars s).
Proof.
  unfold char_in. split.
  - intros H Hin.
    assert (E : existsb (Ascii.eqb c) (chars s) = true).
    { apply existsb_exists. exists c. split; [assumption|apply Ascii.eqb_refl]. }
    congruence.
  - intros H. destruct (existsb (Ascii.eqb c) (chars s)) eqn:E; [|reflexivity].
    apply existsb_exists in E. destruct E as [x [Hx Ex]].
    apply Ascii.eqb_eq in Ex. subst x. contradiction.
Qed.

Lemma str_in_In (x : string) (l : list string) :
  str_in x l = true <-> In x l.
Proof.
  unfold str_in. rewrite existsb_exists. split.
  - intros [y [Hy E]]. apply String.eqb_eq in E. now subst.
  - intros H. exists x. split; [assumption|apply String.eqb_refl].
Qed.

(* ===================================================================== *)
(** * The regular expressions *)
(* ===================================================================== *)

Section Search.

Variable r : regex.

Lemma search_from_intro (pre suf : list ascii) :
  forall prev,
    rmatch r (last (map Some pre) prev) suf accept = true ->
    search_from r prev (pre ++ suf) = true.
Proof.
  induction pre as [|c pre IH]; intros prev H.
  - simpl in *. destruct suf; simpl; now rewrite H.
  - simpl. apply orb_true_iff. right. apply IH.
    simpl map in H. now rewrite last_cons in H.
Qed.

Lemma search_from_elim (s : list ascii) :
  forall prev,
    search_from r prev s = true ->
    exists pre suf,
      s = pre ++ suf /\
      rmatch r (last (map Some pre) prev) suf accept = true.
Proof.
  induction s as [|c s IH]; intros prev H; simpl in H;
    apply orb_true_iff in H; destruct H as [H|H].
  - now exists [], [].
  - discriminate.
  - now exists [], (c :: s).
  - destruct (IH _ H) as [pre [suf [E M]]].
    exists (c :: pre), suf. split; [now rewrite E|].
    simpl map. now rewrite last_cons.
Qed.

End Search.

Lemma plus_from_iff (a : atom) (k : option ascii -> list ascii -> bool)
      (s : list ascii) :
  plus_from a k s = true <->
  exists u c rest,
    s = u ++ c :: rest /\ forallb (atom_matches a) (u ++ [c]) = true /\
    k (Some c) rest = true.
Proof.
  induction s as [|x s IH]; simpl.
  - split; [discriminate|]. intros [u [c [rest [E _]]]].
    now destruct u.
  - rewrite andb_true_iff, orb_true_iff, IH. split.
    + intros [Hx [Hk|[u [c [rest [E [Hu Hk]]]]]]].
      * exists [], x, s. simpl. now rewrite Hx.
      * exists (x :: u), c, rest. simpl. now rewrite E, Hx, Hu.
    + intros [u [c [rest [E [Hu Hk]]]]].
      destruct u as [|y u]; simpl in *.
      * inversion E; subst. apply andb_true_iff in Hu. intuition.
      * inversion E; subst. apply andb_true_iff in Hu.
        destruct Hu as [Hy Hu]. split; [assumption|].
        right. now exists u, c, rest.
Qed.

(** What may follow the [.+] of [png_re]: [.png] and then the end of the
    string, or a newline that ends it. *)
Lemma png_tail_iff (p : option ascii) (t : list ascii) :
  rmatch (Seq (One (Lit ".")) (Seq (Str "png") EndAnchor)) p t accept = true
  <-> t = chars ".png" \/ t = chars ".png" ++ [newline].
Proof.
  cbn [rmatch atom_matches]. split.
  - destruct t as [|x t]; [discriminate|].
    intros H. apply andb_true_iff in H. destruct H as [Hx H].
    apply Ascii.eqb_eq in Hx. subst x.
    destruct (strip_prefix (chars "png") t) as [rest|] eqn:E; [|discriminate].
    apply strip_prefix_inv in E. subst t.
    destruct rest as [|c [|d rest]]; [now left| |discriminate].
    apply andb_true_iff in H. destruct H as [Hc _].
    apply Ascii.eqb_eq in Hc. subst c. now right.
  - intros [->| ->]; reflexivity.
Qed.

Lemma search_png_iff (s : string) :
  char_in newline s = false ->
  (search png_re s = true <-> ends_with_after_char ".png" s).
Proof.
  intros Hnl. apply char_in_false in Hnl. unfold search. split.
  - intros H. apply search_from_elim in H.
    destruct H as [pre [suf [E M]]].
    change (plus_from Dot
              (fun p t => rmatch (Seq (One (Lit ".")) (Seq (Str "png") EndAnchor))
                                 p t accept) suf = true) in M.
    apply plus_from_iff in M. destruct M as [u [c [rest [Es [_ K]]]]].
    apply png_tail_iff in K. destruct K as [K|K]; subst rest suf.
    + exists (string_of_list_ascii (pre ++ u)), c.
      apply chars_inj. rewrite E, chars_app, chars_of_string.
      now rewrite <- app_assoc.
    + exfalso. apply Hnl. rewrite E.
      apply in_or_app. right. apply in_or_app. right. right.
      apply in_or_app. right. now left.
  - intros [pre [c ->]].
    rewrite chars_app. apply search_from_intro.
    change (plus_from Dot
              (fun p t => rmatch (Seq (One (Lit ".")) (Seq (Str "png") EndAnchor))
                                 p t accept) (c :: chars ".png") = true).
    apply plus_from_iff. exists [], c, (chars ".png"). repeat split.
    simpl. rewrite andb_true_r. apply negb_true_iff.
    destruct (Ascii.eqb_spec c newline) as [->|]; [|reflexivity].
    exfalso. apply Hnl. rewrite chars_app. apply in_or_app. right. now left.
Qed.

Lemma search_unused_return (s : string) :
  ends_with_whole_name s -> search unused_return_re s = true.
Proof.
  intros [pre [w [-> [Hin Hb]]]]. unfold search.
  rewrite chars_app. apply search_from_intro.
  unfold word_start, last_char in Hb. apply negb_true_iff in Hb.
  unfold unused_return_re. cbn [rmatch]. rewrite Hb.
  simpl in Hin.
  destruct Hin as [<-|[<-|[<-|[<-|[<-|[]]]]]]; reflexivity.
Qed.

Lemma search_wait_until_iff (s : string) :
  search wait_until_re s = true <-> has_wait_until_token s.
Proof.
  unfold search, has_wait_until_token, word_start, last_char. split.
  - intros H. apply search_from_elim in H.
    destruct H as [pre [suf [E M]]].
    unfold wait_until_re in M. cbn [rmatch] in M.
    apply andb_true_iff in M. destruct M as [B M].
    destruct (strip_prefix (chars "wait_until") suf) as [rest|] eqn:P;
      [|discriminate].
    apply strip_prefix_inv in P. subst suf.
    exists (string_of_list_ascii pre), (string_of_list_ascii rest). split.
    + apply chars_inj. now rewrite E, !chars_app, !chars_of_string.
    + rewrite chars_of_string.
      destruct (is_word_opt (last (map Some pre) None)); [discriminate B|].
      reflexivity.
  - intros [pre [post [-> Hb]]].
    rewrite chars_app. apply search_from_intro.
    apply negb_true_iff in Hb.
    unfold wait_until_re. cbn [rmatch]. rewrite Hb, chars_app.
    now rewrite strip_prefix_app.
Qed.

(* ===================================================================== *)
(** * Loops that add messages *)
(* ===================================================================== *)

Lemma add_message_neq (self : StbtChecker) (id : msgid) (n : node)
      (a : string) :
  add_message self id n a <> self.
Proof.
  unfold add_message. intros E.
  apply (f_equal (@length message)) in E.
  rewrite length_app in E. simpl in E. lia.
Qed.

Lemma fold_add (P : definition -> bool) (m : message) (l : list definition) :
  forall self,
    fold_left (fun self d => if P d then self ++ [m] else self) l self =
    self ++ repeat m (length (filter P l)).
Proof.
  induction l as [|d l IH]; intros self; simpl.
  - now rewrite app_nil_r.
  - rewrite IH. destruct (P d); simpl; [|reflexivity].
    now rewrite <- app_assoc.
Qed.

Lemma for_each_add (P : definition -> bool) (m : message)
      (body : StbtChecker -> definition -> outcome)
      (l : list definition) :
  (forall self d, body self d = done (if P d then self ++ [m] else self)) ->
  forall self,
    for_each body l self = done (self ++ repeat m (length (filter P l))).
Proof.
  intros Hbody. induction l as [|d l IH]; intros self; simpl.
  - now rewrite app_nil_r.
  - rewrite Hbody. cbn [done and_then ret]. rewrite IH.
    destruct (P d); simpl; [|reflexivity].
    now rewrite <- app_assoc.
Qed.

Lemma index_found (x : string) (l : list string) :
  str_in x l = true -> exists i, index x l = ret i.
Proof.
  induction l as [|y l IH]; simpl; [discriminate|].
  rewrite String.eqb_sym.
  destruct (String.eqb y x); simpl; intros H.
  - now exists 0.
  - destruct (IH H) as [i ->]. now exists (S i).
Qed.

Lemma index_missing (x : string) (l : list string) :
  str_in x l = false -> index x l = raise ValueError.
Proof.
  induction l as [|y l IH]; simpl; [reflexivity|].
  rewrite String.eqb_sym.
  destruct (String.eqb y x); simpl; [discriminate|].
  intros H. now rewrite (IH H).
Qed.

(** [l.index(x)] is the first position that holds [x]. *)
Lemma index_first (x : string) (l : list string) (i : nat) :
  index x l = ret i <->
  nth_error l i = Some x /\ forall j, j < i -> nth_error l j <> Some x.
Proof.
  revert i. induction l as [|y l IH]; intros i; simpl.
  - split; [discriminate|]. intros [H _]. now destruct i.
  - destruct (String.eqb_spec y x) as [->|Ne].
    + split.
      * intros H. inversion H. subst i. split; [reflexivity|]. intros j Hj. lia.
      * intros [_ H]. destruct i as [|i]; [reflexivity|].
        exfalso. apply (H 0); [lia|reflexivity].
    + destruct (index x l) as [e|k] eqn:E; cbn [bind ret].
      * split; [discriminate|]. intros [H Hmin].
        destruct i as [|i]; simpl in H; [congruence|].
        assert (C : inl e = ret i); [|discriminate C].
        apply IH. split; [assumption|]. intros j Hj.
        apply (Hmin (S j)). lia.
      * split.
        -- intros H. inversion H. subst i. simpl.
           destruct (proj1 (IH k) eq_refl) as [H1 H2]. split; [assumption|].
           intros [|j] Hj; simpl; [congruence|]. apply H2. lia.
        -- intros [H Hmin]. destruct i as [|i]; simpl in H; [congruence|].
           f_equal. f_equal.
           assert (C : @inr exception nat k = ret i); [|now inversion C].
           apply IH. split; [assumption|]. intros j Hj.
           apply (Hmin (S j)). lia.
Qed.

(* ===================================================================== *)
(** * [visit_callfunc] as the sum of its three checks *)
(* ===================================================================== *)

Lemma frame_body (n : node) (args : list node) (kw : keywords_attr)
      (self : StbtChecker) (funcdef : definition) :
  (if isinstance_FunctionDef funcdef && negb (is_YES (Inferred funcdef)) &&
      str_in "frame" (def_argnames funcdef)
   then
     eval (index "frame" (def_argnames funcdef)) self (fun i =>
     if (length (filter (fun a => negb (is_Keyword (n_kind a))) args) <=? i)%nat
        && negb (name_in "frame" (keyword_names args kw))
     then done (add_message self E7004 n (as_string n))
     else done self)
   else done self) =
  done (if frame_not_supplied args kw funcdef
        then self ++ [mkMessage E7004 n (as_string n)] else self).
Proof.
  unfold frame_not_supplied, positional, add_message.
  cbn [is_YES negb]. rewrite andb_true_r.
  destruct (isinstance_FunctionDef funcdef); cbn [andb]; [|reflexivity].
  destruct (str_in "frame" (def_argnames funcdef)) eqn:F.
  - destruct (index_found _ _ F) as [i ->]. cbn [eval ret].
    now destruct (_ && _).
  - now rewrite (index_missing _ _ F).
Qed.

Lemma visit_callfunc_messages (self : StbtChecker) (n func : node)
      (args : list node) (kw : keywords_attr) :
  n_kind n = Call func args kw ->
  visit_callfunc self n =
  match wait_until_messages n func args with
  | inr added =>
      done (self ++ unused_return_messages n func ++ added ++
                    frame_messages n func args kw)
  | inl e => failed e (self ++ unused_return_messages n func)
  end.
Proof.
  intros K. unfold visit_callfunc. rewrite K. cbv zeta.
  set (s1 := if search unused_return_re (as_string func) then _ else self).
  assert (E1 : s1 = self ++ unused_return_messages n func).
  { subst s1. unfold unused_return_messages, add_message.
    destruct (search unused_return_re (as_string func)); cbn [andb];
      [|now rewrite app_nil_r].
    destruct (isinstance (n_parent n) is_Expr); [|now rewrite app_nil_r].
    apply fold_add. }
  rewrite E1. clear s1 E1.
  set (s1 := self ++ unused_return_messages n func).
  assert (E3 : forall s2,
             (if _in_frameobject n && _in_property n
              then
                for_each
                  (fun self0 funcdef =>
                     if isinstance_FunctionDef funcdef &&
                        negb (is_YES (Inferred funcdef)) &&
                        str_in "frame" (def_argnames funcdef)
                     then
                       eval (index "frame" (def_argnames funcdef)) self0
                            (fun i =>
                               if (length
                                     (filter
                                        (fun a => negb (is_Keyword (n_kind a)))
                                        args) <=? i)%nat &&
                                  negb (name_in "frame" (keyword_names args kw))
                               then done (add_message self0 E7004 n
                                                      (as_string n))
                               else done self0)
                     else done self0)
                  (_infer func) s2
              else done s2) = done (s2 ++ frame_messages n func args kw)).
  { intros s2. unfold frame_messages.
    destruct (_in_frameobject n && _in_property n);
      [|now rewrite app_nil_r].
    apply (for_each_add (frame_not_supplied args kw)
                        (mkMessage E7004 n (as_string n))).
    intros self' d. apply frame_body. }
  unfold wait_until_messages.
  destruct (search wait_until_re (as_string func)).
  - destruct args as [|arg rest].
    + cbn [and_then done ret]. rewrite E3. subst s1.
      now rewrite <- !app_assoc.
    + cbn [nth_error eval ret]. unfold bind.
      destruct (_is_callable arg) as [e|c]; [reflexivity|].
      cbn [eval]. destruct c; cbn [negb and_then done ret];
        rewrite E3; subst s1; unfold add_message;
        now rewrite <- !app_assoc.
  - cbn [and_then done ret]. rewrite E3. subst s1.
    now rewrite <- !app_assoc.
Qed.

Lemma visit_callfunc_outcome (self : StbtChecker) (n func : node)
      (args : list node) (kw : keywords_attr) :
  n_kind n = Call func args kw ->
  snd (visit_callfunc self n) = self ++ call_messages n func args kw /\
  fst (visit_callfunc self n) =
  match wait_until_messages n func args with
  | inr _ => ret tt
  | inl e => raise e
  end.
Proof.
  intros K. rewrite (visit_callfunc_messages _ _ _ _ _ K).
  unfold call_messages.
  destruct (wait_until_messages n func args); split; try reflexivity.
  cbn [failed snd]. now rewrite app_nil_r.
Qed.

Lemma of_rule_app (id : msgid) (l1 l2 : list message) :
  of_rule id (l1 ++ l2) = of_rule id l1 ++ of_rule id l2.
Proof. apply filter_app. Qed.

Lemma of_rule_all (id : msgid) (l : list message) :
  (forall m, In m l -> msg_id m = id) -> of_rule id l = l.
Proof.
  induction l as [|m l IH]; intros H; simpl; [reflexivity|].
  rewrite (H m (or_introl eq_refl)).
  replace (msgid_eqb id id) with true by now destruct id.
  f_equal. apply IH. intros m' Hm'. apply H. now right.
Qed.

Lemma of_rule_none (id : msgid) (l : list message) :
  (forall m, In m l -> msg_id m <> id) -> of_rule id l = [].
Proof.
  induction l as [|m l IH]; intros H; simpl; [reflexivity|].
  assert (N := H m (or_introl eq_refl)).
  destruct (msgid_eqb (msg_id m) id) eqn:E.
  - exfalso. apply N. destruct (msg_id m), id; (reflexivity || discriminate).
  - apply IH. intros m' Hm'. apply H. now right.
Qed.

Lemma unused_return_ids (n func : node) (m : message) :
  In m (unused_return_messages n func) ->
  m = mkMessage E7002 n (as_string func).
Proof.
  unfold unused_return_messages. destruct (_ && _); [|contradiction].
  intros H. now apply repeat_spec in H.
Qed.

Lemma wait_until_ids (n func : node) (args : list node)
      (added : list message) (m : message) :
  wait_until_messages n func args = ret added ->
  In m added ->
  exists arg rest,
    args = arg :: rest /\ _is_callable arg = ret false /\
    m = mkMessage E7003 n (as_string arg).
Proof.
  unfold wait_until_messages.
  destruct (search wait_until_re (as_string func));
    [|intros E; inversion E; intros []].
  destruct args as [|arg rest]; [intros E; inversion E; intros []|].
  destruct (_is_callable arg) as [e|[|]] eqn:C; cbn [bind ret]; intros E;
    inversion E; intros H.
  - destruct H.
  - destruct H as [<-|[]]. now exists arg, rest.
Qed.

Lemma frame_ids (n func : node) (args : list node) (kw : keywords_attr)
      (m : message) :
  In m (frame_messages n func args kw) ->
  m = mkMessage E7004 n (as_string n).
Proof.
  unfold frame_messages. destruct (_ && _); [|contradiction].
  intros H. now apply repeat_spec in H.
Qed.

(** The messages of each rule among those of one call. *)
Lemma of_rule_call (n func : node) (args : list node) (kw : keywords_attr) :
  let emitted := call_messages n func args kw in
  of_rule E7001 emitted = [] /\
  of_rule E7002 emitted = unused_return_messages n func /\
  of_rule E7003 emitted =
    match wait_until_messages n func args with
    | inr added => added
    | inl _ => []
    end /\
  of_rule E7004 emitted =
    match wait_until_messages n func args with
    | inr _ => frame_messages n func args kw
    | inl _ => []
    end.
Proof.
  intros emitted. subst emitted. unfold call_messages.
  assert (U : forall m, In m (unused_return_messages n func) ->
                        msg_id m = E7002).
  { intros m H. now rewrite (unused_return_ids _ _ _ H). }
  assert (F : forall m, In m (frame_messages n func args kw) ->
                        msg_id m = E7004).
  { intros m H. now rewrite (frame_ids _ _ _ _ _ H). }
  assert (NU : forall id, id <> E7002 ->
                 of_rule id (unused_return_messages n func) = []).
  { intros id N. apply of_rule_none. intros m H. apply U in H. congruence. }
  assert (NF : forall id, id <> E7004 ->
                 of_rule id (frame_messages n func args kw) = []).
  { intros id N. apply of_rule_none. intros m H. apply F in H. congruence. }
  destruct (wait_until_messages n func args) as [e|added] eqn:WE.
  - rewrite app_nil_r. repeat split.
    + now rewrite NU.
    + now rewrite (of_rule_all _ _ U).
    + now rewrite NU.
    + now rewrite NU.
  - assert (W : forall m, In m added -> msg_id m = E7003).
    { intros m H.
      destruct (wait_until_ids _ _ _ _ _ WE H) as [a [r [_ [_ ->]]]].
      reflexivity. }
    assert (NW : forall id, id <> E7003 -> of_rule id added = []).
    { intros id N. apply of_rule_none. intros m H. apply W in H. congruence. }
    rewrite !of_rule_app. repeat split.
    + now rewrite NU, NW, NF.
    + now rewrite (of_rule_all _ _ U), NW, NF, app_nil_r.
    + now rewrite NU, (of_rule_all _ _ W), NF, app_nil_r.
    + now rewrite NU, NW, (of_rule_all _ _ F).
Qed.

(* ===================================================================== *)
(** * The inference adapter and the predicates *)
(* ===================================================================== *)

Lemma _infer_loop_filter (g : generator) :
  map Inferred (_infer_loop g) =
  filter (fun i => negb (is_YES i)) (yielded g).
Proof.
  induction g as [| |i g IH]; simpl; try reflexivity.
  destruct i; simpl; now rewrite IH.
Qed.

Lemma passes_cons (name : string) (d : definition) (l : list definition) :
  passes name (d :: l) <->
  (isinstance_FunctionDef d = true ->
   exists q, qualified_name d = ret q /\ q <> name) /\
  passes name l.
Proof.
  unfold passes. split.
  - intros H. split.
    + apply H. now left.
    + intros d' Hd'. apply H. now right.
  - intros [H1 H2] d' [<-|Hd']; [exact H1|now apply H2].
Qed.

Lemma stops_with_cons (name : string) (d : definition) (l : list definition)
      (r : result string) :
  stops_with name (d :: l) r <->
  (isinstance_FunctionDef d = true /\ qualified_name d = r) \/
  ((isinstance_FunctionDef d = true ->
    exists q, qualified_name d = ret q /\ q <> name) /\
   stops_with name l r).
Proof.
  unfold stops_with. split.
  - intros [before [d' [after [E [P [F Q]]]]]].
    destruct before as [|b before]; simpl in E; inversion E; subst.
    + now left.
    + right. apply passes_cons in P. destruct P as [P1 P2].
      split; [exact P1|]. now exists before, d', after.
  - intros [[F Q]|[P1 [before [d' [after [E [P [F Q]]]]]]]].
    + exists [], d, l. repeat split; try assumption. intros x [].
    + exists (d :: before), d', after. rewrite E.
      repeat split; try assumption. apply passes_cons. now split.
Qed.

(** The three ways the loop of [_is_function_named] can end. *)
Lemma _is_function_named_loop_ends (name : string) (l : list definition) :
  (_is_function_named_loop l name = ret true <->
   stops_with name l (ret name)) /\
  (forall e, _is_function_named_loop l name = raise e <->
             stops_with name l (raise e)) /\
  (_is_function_named_loop l name = ret false <-> passes name l).
Proof.
  induction l as [|d l [IHt [IHr IHf]]].
  - split; [|split].
    + split; [discriminate|]. intros [before [d [after [E _]]]].
      now destruct before.
    + intros e. split; [discriminate|]. intros [before [d [after [E _]]]].
      now destruct before.
    + split; [intros _ d []|reflexivity].
  - cbn [_is_function_named_loop].
    destruct (isinstance_FunctionDef d) eqn:F.
    + destruct (qualified_name d) as [e'|q] eqn:Q; cbn [bind].
      * split; [|split].
        -- rewrite stops_with_cons, F, Q. split; [discriminate|].
           intros [[_ H]|[H _]]; [discriminate H|].
           destruct (H eq_refl) as [q [H' _]]. discriminate H'.
        -- intros e. rewrite stops_with_cons, F, Q. split.
           ++ intros H. inversion H. left. now split.
           ++ intros [[_ H]|[H _]]; [now inversion H|].
              destruct (H eq_refl) as [q [H' _]]. discriminate H'.
        -- rewrite passes_cons, F, Q. split; [discriminate|].
           intros [H _]. destruct (H eq_refl) as [q [H' _]]. discriminate H'.
      * destruct (String.eqb_spec q name) as [->|N].
        -- split; [|split].
           ++ rewrite stops_with_cons, F, Q.
              split; [intros _; left; now split|reflexivity].
           ++ intros e. rewrite stops_with_cons, F, Q. split; [discriminate|].
              intros [[_ H]|[H _]]; [discriminate H|].
              destruct (H eq_refl) as [q [H' N]]. inversion H'. now subst.
           ++ rewrite passes_cons, F, Q. split; [discriminate|].
              intros [H _]. destruct (H eq_refl) as [q [H' N]].
              inversion H'. now subst.
        -- assert (P : isinstance_FunctionDef d = true ->
                       exists q', qualified_name d = ret q' /\ q' <> name).
           { intros _. exists q. now split. }
           rewrite Q in P.
           split; [|split].
           ++ rewrite IHt, stops_with_cons, F, Q. split.
              ** intros H. right. split; [intros _; exists q; now split|exact H].
              ** intros [[_ H]|[_ H]]; [|exact H].
                 inversion H. now subst.
           ++ intros e. rewrite IHr, stops_with_cons, F, Q. split.
              ** intros H. right. split; [intros _; exists q; now split|exact H].
              ** intros [[_ H]|[_ H]]; [discriminate H|exact H].
           ++ rewrite IHf, passes_cons, F, Q. split.
              ** intros H. split; [intros _; exists q; now split|exact H].
              ** now intros [_ H].
    + split; [|split].
      * rewrite IHt, stops_with_cons, F. split.
        -- intros H. right. split; [discriminate|exact H].
        -- intros [[H _]|[_ H]]; [discriminate H|exact H].
      * intros e. rewrite IHr, stops_with_cons, F. split.
        -- intros H. right. split; [discriminate|exact H].
        -- intros [[H _]|[_ H]]; [discriminate H|exact H].
      * rewrite IHf, passes_cons, F. split.
        -- intros H. split; [discriminate|exact H].
        -- now intros [_ H].
Qed.

Lemma stops_with_In (name : string) (l : list definition) (r : result string) :
  stops_with name l r ->
  exists d, In d l /\ isinstance_FunctionDef d = true /\ qualified_name d = r.
Proof.
  intros [before [d [after [-> [_ [F Q]]]]]]. exists d.
  split; [|now split]. apply in_or_app. right. now left.
Qed.

Lemma _is_function_named_true (func : node) (name : string) :
  _is_function_named func name = ret true -> identified_as func name.
Proof.
  unfold _is_function_named, identified_as.
  destruct (String.eqb_spec (as_string func) name) as [E|N]; [now left|].
  intros H. right.
  apply (proj1 (_is_function_named_loop_ends name _)) in H.
  now apply stops_with_In in H.
Qed.

Lemma _is_function_named_raise (func : node) (name : string) (e : exception) :
  _is_function_named func name = raise e ->
  exists d, In d (_infer func) /\ isinstance_FunctionDef d = true /\
            qualified_name d = raise e.
Proof.
  unfold _is_function_named.
  destruct (String.eqb (as_string func) name); [discriminate|].
  intros H.
  apply (proj1 (proj2 (_is_function_named_loop_ends name _))) in H.
  now apply stops_with_In in H.
Qed.

Lemma named_parents_qualified (l : list definition) (d : definition) :
  named_parents l -> In d l -> isinstance_FunctionDef d = true ->
  exists q, qualified_name d = ret q.
Proof.
  intros H Hd F. destruct (H d Hd F) as [p E].
  unfold qualified_name. rewrite E. now eexists.
Qed.

(** When every function definition has a named parent the loop returns,
    and it returns true exactly when one of them has the name. *)
Lemma _is_function_named_loop_named (name : string) (l : list definition) :
  named_parents l ->
  exists b,
    _is_function_named_loop l name = ret b /\
    (b = true <->
     exists d, In d l /\ isinstance_FunctionDef d = true /\
               qualified_name d = ret name).
Proof.
  induction l as [|d l IH]; intros H.
  - exists false. split; [reflexivity|]. split; [discriminate|].
    intros [d [[] _]].
  - destruct IH as [b [E I]].
    { intros d' Hd'. apply H. now right. }
    cbn [_is_function_named_loop].
    destruct (isinstance_FunctionDef d) eqn:F.
    + destruct (named_parents_qualified _ d H (or_introl eq_refl) F)
        as [q Q].
      rewrite Q. cbn [bind ret].
      destruct (String.eqb_spec q name) as [->|N].
      * exists true. split; [reflexivity|]. split; [|reflexivity].
        intros _. exists d. split; [now left|]. now split.
      * exists b. split; [exact E|]. rewrite I. split.
        -- intros [d' [Hd' H']]. exists d'. split; [now right|exact H'].
        -- intros [d' [[<-|Hd'] [F' Q']]].
           ++ rewrite Q in Q'. inversion Q'. contradiction.
           ++ now exists d'.
    + exists b. split; [exact E|]. rewrite I. split.
      * intros [d' [Hd' H']]. exists d'. split; [now right|exact H'].
      * intros [d' [[<-|Hd'] [F' Q']]]; [congruence|now exists d'].
Qed.

Lemma _is_function_named_named (func : node) (name : string) :
  named_parents (_infer func) ->
  exists b,
    _is_function_named func name = ret b /\
    (b = true <-> identified_as func name).
Proof.
  intros H. unfold _is_function_named, identified_as.
  destruct (String.eqb_spec (as_string func) name) as [E|N].
  - exists true. split; [reflexivity|]. split; [now left|reflexivity].
  - destruct (_is_function_named_loop_named name _ H) as [b [E I]].
    exists b. split; [exact E|]. rewrite I. split; [now right|].
    now intros [C|C].
Qed.

Lemma any_function_named_true (func : node) (names : list string) :
  any_function_named func names = ret true ->
  exists x, In x names /\ _is_function_named func x = ret true.
Proof.
  induction names as [|x names IH]; [discriminate|].
  cbn [any_function_named].
  destruct (_is_function_named func x) as [e|[|]] eqn:E; cbn [bind];
    [discriminate| |].
  - intros _. exists x. split; [now left|exact E].
  - intros H. destruct (IH H) as [y [Hy E']]. exists y. split; [now right|].
    exact E'.
Qed.

Lemma any_function_named_raise (func : node) (names : list string)
      (e : exception) :
  any_function_named func names = raise e ->
  exists x, In x names /\ _is_function_named func x = raise e.
Proof.
  induction names as [|x names IH]; [discriminate|].
  cbn [any_function_named].
  destruct (_is_function_named func x) as [e'|[|]] eqn:E; cbn [bind].
  - intros H. exists x. split; [now left|]. now rewrite <- H.
  - discriminate.
  - intros H. destruct (IH H) as [y [Hy E']]. exists y. split; [now right|].
    exact E'.
Qed.

Lemma any_function_named_named (func : node) (names : list string) :
  named_parents (_infer func) ->
  exists b,
    any_function_named func names = ret b /\
    (b = true <-> exists x, In x names /\ identified_as func x).
Proof.
  intros H. induction names as [|x names [b [E I]]].
  - exists false. split; [reflexivity|]. split; [discriminate|].
    intros [x [[] _]].
  - cbn [any_function_named].
    destruct (_is_function_named_named func x H) as [c [Ec Ic]].
    rewrite Ec. cbn [bind]. destruct c.
    + exists true. split; [reflexivity|]. split; [|reflexivity].
      intros _. exists x. split; [now left|]. now apply Ic.
    + exists b. split; [exact E|]. rewrite I. split.
      * intros [y [Hy Iy]]. exists y. split; [now right|exact Iy].
      * intros [y [[<-|Hy] Iy]]; [|now exists y].
        apply Ic in Iy. discriminate Iy.
Qed.

Lemma _is_callable_loop_eq (l : list definition) :
  forall failed_to_infer,
    _is_callable_loop l failed_to_infer =
    if existsb callable l then (true, false)
    else (false, match l with [] => failed_to_infer | _ :: _ => false end).
Proof.
  induction l as [|d l IH]; intros f; simpl; [reflexivity|].
  destruct (callable d); simpl; [reflexivity|].
  rewrite IH. destruct (existsb callable l); [reflexivity|].
  now destruct l.
Qed.

Lemma bind_bool (c : result bool) :
  (named <- c ;; if named then ret true else ret false) = c.
Proof. now destruct c as [e|[|]]. Qed.

Lemma _is_callable_eq (n : node) :
  _is_callable n =
  match _infer n with
  | [] =>
      match n_kind n with
      | Call func _ _ => _is_function_named func "functools.partial"
      | _ => ret false
      end
  | _ :: _ => ret (existsb callable (_infer n))
  end.
Proof.
  unfold _is_callable. rewrite _is_callable_loop_eq.
  destruct (_infer n) as [|d l] eqn:E.
  - simpl. destruct (n_kind n); try reflexivity. apply bind_bool.
  - now destruct (existsb callable (d :: l)).
Qed.

(** Induction along the [parent] links. *)
Lemma node_parent_ind (P : node -> Prop) :
  (forall k t g f, P (mkNode k None t g f)) ->
  (forall k p t g f, P p -> P (mkNode k (Some p) t g f)) ->
  forall n, P n.
Proof.
  intros Htop Hstep. fix IH 1.
  intros [k [p|] t g f].
  - apply Hstep, IH.
  - apply Htop.
Qed.

Lemma lineage_self (n : node) : In n (lineage n).
Proof. destruct n; now left. Qed.

Lemma _in_property_iff (n : node) :
  _in_property n = true <->
  exists m decoratornames,
    In m (lineage n) /\ n_kind m = FunctionDef decoratornames /\
    In "__builtin__.property" decoratornames.
Proof.
  induction n as [k t g f|k p t g f IH] using node_parent_ind.
  - cbn [_in_property lineage]. split.
    + destruct k; try discriminate.
      destruct (str_in _ decoratornames) eqn:E; [|discriminate].
      intros _. eexists _, decoratornames. split; [now left|].
      split; [reflexivity|]. now apply str_in_In.
    + intros [m [ds [[<-|[]] [K H]]]]. simpl in K. subst k.
      apply str_in_In in H. now rewrite H.
  - cbn [_in_property lineage]. split.
    + destruct (match k with FunctionDef ds => str_in _ ds | _ => false end)
        eqn:E.
      * destruct k; try discriminate. intros _.
        eexists _, decoratornames. split; [now left|].
        split; [reflexivity|]. now apply str_in_In.
      * intros H. apply IH in H. destruct H as [m [ds [Hm H]]].
        exists m, ds. split; [now right|assumption].
    + intros [m [ds [[<-|Hm] [K H]]]].
      * simpl in K. subst k. apply str_in_In in H. now rewrite H.
      * destruct (match k with FunctionDef ds => str_in _ ds | _ => false end);
          [reflexivity|].
        apply IH. now exists m, ds.
Qed.

Lemma _in_frameobject_iff (n : node) :
  _in_frameobject n = true <->
  exists m ancestors,
    In m (lineage n) /\ n_kind m = ClassDef ancestors /\
    In "stbt.FrameObject" ancestors.
Proof.
  induction n as [k t g f|k p t g f IH] using node_parent_ind.
  - cbn [_in_frameobject lineage]. split.
    + destruct k; try discriminate.
      destruct (str_in _ ancestors) eqn:E; [|discriminate].
      intros _. eexists _, ancestors. split; [now left|].
      split; [reflexivity|]. now apply str_in_In.
    + intros [m [ds [[<-|[]] [K H]]]]. simpl in K. subst k.
      apply str_in_In in H. now rewrite H.
  - cbn [_in_frameobject lineage]. split.
    + destruct (match k with ClassDef ds => str_in _ ds | _ => false end)
        eqn:E.
      * destruct k; try discriminate. intros _.
        eexists _, ancestors. split; [now left|].
        split; [reflexivity|]. now apply str_in_In.
      * intros H. apply IH in H. destruct H as [m [ds [Hm H]]].
        exists m, ds. split; [now right|assumption].
    + intros [m [ds [[<-|Hm] [K H]]]].
      * simpl in K. subst k. apply str_in_In in H. now rewrite H.
      * destruct (match k with ClassDef ds => str_in _ ds | _ => false end);
          [reflexivity|].
        apply IH. now exists m, ds.
Qed.

Lemma first_found_property (n : node) :
  in_property_first_found n = true -> _in_property n = true.
Proof.
  induction n as [k t g f|k p t g f IH] using node_parent_ind;
    cbn [in_property_first_found _in_property].
  - destruct k; try discriminate. now intros ->.
  - destruct k; try (intros H; now apply IH). now intros ->.
Qed.

Lemma first_found_marker_class (n : node) :
  in_marker_class_first_found n = true -> _in_frameobject n = true.
Proof.
  induction n as [k t g f|k p t g f IH] using node_parent_ind;
    cbn [in_marker_class_first_found _in_frameobject].
  - destruct k; try discriminate. now intros ->.
  - destruct k; try (intros H; now apply IH). now intros ->.
Qed.

(** ** [visit_const] on a string literal *)

Lemma visit_const_str (isfile : filesystem) (self : StbtChecker) (n : node)
      (s : string) :
  n_kind n = Const (VStr s) ->
  visit_const isfile self n =
  if search png_re s && negb (char_in newline s) &&
     negb (_is_calculated_value n) && negb (search star_re s) &&
     negb (_is_whitelisted_name s)
  then
    match _in_whitelisted_functions n with
    | inl e => failed e self
    | inr whitelisted =>
        if negb whitelisted && negb (_file_exists isfile s n)
        then done (add_message self E7001 n s)
        else done self
    end
  else done self.
Proof.
  intros K. unfold visit_const, _is_pattern_value. rewrite K.
  destruct (search png_re s && negb (char_in newline s) &&
            negb (_is_calculated_value n)); cbn [andb eval ret];
    [|reflexivity].
  destruct (negb (search star_re s) && negb (_is_whitelisted_name s));
    reflexivity.
Qed.

Lemma done_add_neq (self : StbtChecker) (id : msgid) (n : node) (a : string) :
  done self <> done (add_message self id n a).
Proof.
  intros E. inversion E as [E']. symmetry in E'.
  now apply add_message_neq in E'.
Qed.


Lemma visit_callfunc_pair (self : StbtChecker) (n func : node)
      (args : list node) (kw : keywords_attr) :
  n_kind n = Call func args kw ->
  visit_callfunc self n =
  (match wait_until_messages n func args with
   | inr _ => ret tt
   | inl e => raise e
   end, self ++ call_messages n func args kw).
Proof.
  intros K. destruct (visit_callfunc_outcome self _ _ _ _ K) as [S F].
  rewrite <- S, <- F. now destruct (visit_callfunc self n).
Qed.

(* ===================================================================== *)
(** * E7001: images that are not on disk *)
(* ===================================================================== *)

(** C1, as stated, fails: the literal [".png"] in [image = ".png"] ends
    with [.png], has no line break, is neither calculated, a pattern,
    whitelisted nor an argument of a whitelisted function, and no such
    file exists; yet [visit_const] adds no message. *)
Lemma bare_png_suffix_unreported :
  missing_image_conditions (ends_with ".png") Samples.nothing_on_disk
                           Samples.bare_png ".png" /\
  visit_const Samples.nothing_on_disk [] Samples.bare_png = done [].
Proof.
  split; [|reflexivity].
  repeat split. now exists "".
Qed.

(** C1, amended: for a literal whose value is the string [s],
    [visit_const] adds either exactly one message, E7001 with [s] as its
    argument, or nothing. It adds the message, and returns, if and only if
    [s] ends with [.png] after at least one other character, [s] has no
    line break, and [_is_calculated_value], [_is_pattern_value],
    [_is_whitelisted_name], [_in_whitelisted_functions] and [_file_exists]
    all return false. In every other case the checker is left as it was:
    the visit returns, or it ends with the exception that
    [_in_whitelisted_functions] raises, which happens exactly when the
    five conjuncts before it hold. *)
Theorem visit_const_missing_image (isfile : filesystem) (self : StbtChecker)
        (n : node) (s : string) :
  n_kind n = Const (VStr s) ->
  (visit_const isfile self n = done (add_message self E7001 n s) \/
   visit_const isfile self n = done self \/
   exists e, visit_const isfile self n = failed e self) /\
  (visit_const isfile self n = done (add_message self E7001 n s) <->
   missing_image_conditions (ends_with_after_char ".png") isfile n s) /\
  (forall e,
      visit_const isfile self n = failed e self <->
      ends_with_after_char ".png" s /\
      char_in newline s = false /\
      _is_calculated_value n = false /\
      _is_pattern_value n = ret false /\
      _is_whitelisted_name s = false /\
      _in_whitelisted_functions n = raise e).
Proof.
  intros K. rewrite (visit_const_str _ _ _ _ K).
  unfold missing_image_conditions, _is_pattern_value. rewrite K.
  destruct (char_in newline s) eqn:NL.
  { rewrite andb_false_r. cbn [andb negb]. split; [right; now left|]. split.
    - split.
      + intros E. now apply done_add_neq in E.
      + intros [_ [C _]]. discriminate C.
    - intros e. split; [discriminate|]. intros [_ [C _]]. discriminate C. }
  pose proof (search_png_iff s NL) as P.
  destruct (search png_re s) eqn:S;
    destruct (_is_calculated_value n);
    destruct (search star_re s);
    destruct (_is_whitelisted_name s);
    destruct (_in_whitelisted_functions n) as [e'|[|]];
    destruct (_file_exists isfile s n);
    cbn [andb negb];
    (split;
     [first [now left|right; now left|right; right; now exists e']|]);
    (split;
     [split;
      [ intros E; first [ now apply done_add_neq in E
                        | discriminate E
                        | repeat split; now apply P ]
      | intros [E1 [_ [E3 [E4 [E5 [E6 E7]]]]]];
        first [ reflexivity
              | discriminate E3 | discriminate E4 | discriminate E5
              | discriminate E6 | discriminate E7
              | apply P in E1; discriminate E1 ] ]
     |intros e; split;
      [ intros E; first [ discriminate E
                        | inversion E; subst; repeat split; now apply P ]
      | intros [E1 [_ [E3 [E4 [E5 E6]]]]];
        first [ discriminate E3 | discriminate E4 | discriminate E5
              | discriminate E6
              | apply P in E1; discriminate E1
              | inversion E6; reflexivity ] ] ]).
Qed.

Lemma visit_const_missing_image_witness :
  n_kind Samples.missing_png = Const (VStr "missing.png") /\
  visit_const Samples.nothing_on_disk [] Samples.missing_png =
  done [mkMessage E7001 Samples.missing_png "missing.png"] /\
  visit_const (Samples.only "/tests/missing.png") [] Samples.missing_png =
  done [] /\
  visit_const Samples.nothing_on_disk [] MoreSamples.loaded_png =
  failed AttributeError [].
Proof.
  split; [reflexivity|]. split; [|split].
  - apply (visit_const_missing_image Samples.nothing_on_disk []
             Samples.missing_png "missing.png" eq_refl).
    repeat split. now exists "missin", "g"%char.
  - destruct (visit_const_missing_image (Samples.only "/tests/missing.png") []
                Samples.missing_png "missing.png" eq_refl)
      as [[H|[H|[e H]]] [I J]].
    + apply I in H. destruct H as [_ [_ [_ [_ [_ [_ H]]]]]]. discriminate H.
    + exact H.
    + apply J in H. destruct H as [_ [_ [_ [_ [_ H]]]]]. discriminate H.
  - apply (visit_const_missing_image Samples.nothing_on_disk []
             MoreSamples.loaded_png "a.png" eq_refl).
    repeat split. now exists "", "a"%char.
Defined.

(** C10: a literal whose value is exactly [".png"] never makes
    [visit_const] add a message, whatever its place in the tree and
    whatever is on disk: the pattern wants a character before [.png]. *)
Theorem visit_const_bare_suffix (isfile : filesystem) (self : StbtChecker)
        (n : node) :
  n_kind n = Const (VStr ".png") ->
  visit_const isfile self n = done self.
Proof.
  intros K. now rewrite (visit_const_str _ _ _ _ K).
Qed.

Lemma visit_const_bare_suffix_witness :
  n_kind Samples.bare_png = Const (VStr ".png") /\
  _file_exists Samples.nothing_on_disk ".png" Samples.bare_png = false /\
  visit_const Samples.nothing_on_disk [] Samples.bare_png = done [].
Proof.
  split; [reflexivity|]. split; [reflexivity|].
  exact (visit_const_bare_suffix Samples.nothing_on_disk []
           Samples.bare_png eq_refl).
Defined.

(* ===================================================================== *)
(** * How many messages one visit adds *)
(* ===================================================================== *)

(** C2, as stated, fails: when [stbt.match] resolves to two definitions of
    the library, the statement [stbt.match('a.png')] gets two E7002
    messages, and the same call in a [FrameObject] property gets two
    E7004 messages. Neither loop stops after its first message. *)
Lemma visit_callfunc_repeats_message :
  visit Samples.nothing_on_disk [] Samples.bare_match_two =
  done [mkMessage E7002 Samples.bare_match_two "stbt.match";
        mkMessage E7002 Samples.bare_match_two "stbt.match"] /\
  visit Samples.nothing_on_disk [] Samples.match_in_property_two =
  done [mkMessage E7004 Samples.match_in_property_two "stbt.match('a.png')";
        mkMessage E7004 Samples.match_in_property_two "stbt.match('a.png')"].
Proof. split; reflexivity. Qed.

(** C2, amended: a visit of any node ends, returning or raising, with
    the messages [emitted] added to the checker. There is at most one
    E7001 and at most one E7003 message among them, and all the messages
    for one rule are the same message (same node, same argument). On a
    call, E7002 is added once for every resolved definition of the callee
    that lives in [stbt] or [_stbt.core] (when the callee's text matches
    and the call is an expression statement); E7004 is added, in a visit
    that returns, once for every resolved function definition whose
    [frame] parameter the call does not supply (when the call is in a
    [FrameObject] property), and not at all in a visit that raises. *)
Theorem visit_messages_per_rule (isfile : filesystem) (self : StbtChecker)
        (n : node) :
  exists r emitted,
    visit isfile self n = (r, self ++ emitted) /\
    length (of_rule E7001 emitted) <= 1 /\
    length (of_rule E7003 emitted) <= 1 /\
    (forall m1 m2, In m1 emitted -> In m2 emitted ->
                   msg_id m1 = msg_id m2 -> m1 = m2) /\
    (forall func args kw,
        n_kind n = Call func args kw ->
        length (of_rule E7002 emitted) =
        (if search unused_return_re (as_string func) &&
            isinstance (n_parent n) is_Expr
         then length (filter in_stbt (_infer func)) else 0) /\
        length (of_rule E7004 emitted) =
        match r with
        | inr _ =>
            if _in_frameobject n && _in_property n
            then length (filter (frame_not_supplied args kw) (_infer func))
            else 0
        | inl _ => 0
        end).
Proof.
  unfold visit.
  destruct (n_kind n) as [ | | | | | | | | | | |func args kw| |v| ] eqn:K;
    try (exists (ret tt), []; unfold done; rewrite app_nil_r; repeat split;
         [simpl; lia|simpl; lia|intros ? ? []|discriminate|discriminate]).
  - (* a call *)
    exists (match wait_until_messages n func args with
            | inr _ => ret tt
            | inl e => raise e
            end), (call_messages n func args kw).
    destruct (of_rule_call n func args kw) as [R1 [R2 [R3 R4]]].
    cbv zeta in R1, R2, R3, R4.
    split; [now apply visit_callfunc_pair|].
    rewrite R1, R3. split; [simpl; lia|]. split; [|split].
    + destruct (wait_until_messages n func args) as [e|added] eqn:W;
        [simpl; lia|].
      revert W. unfold wait_until_messages.
      destruct (search wait_until_re (as_string func));
        [|intros W; inversion W; simpl; lia].
      destruct args as [|arg rest]; [intros W; inversion W; simpl; lia|].
      destruct (_is_callable arg) as [e|[|]]; cbn [bind ret]; intros W;
        inversion W; simpl; lia.
    + intros m1 m2 H1 H2 E.
      assert (shape : forall m,
                 In m (call_messages n func args kw) ->
                 m = mkMessage E7002 n (as_string func) \/
                 (exists arg rest, args = arg :: rest /\
                                   m = mkMessage E7003 n (as_string arg)) \/
                 m = mkMessage E7004 n (as_string n)).
      { intros m H. unfold call_messages in H.
        apply in_app_or in H. destruct H as [H|H].
        - left. now apply unused_return_ids in H.
        - destruct (wait_until_messages n func args) as [e|added] eqn:W;
            [contradiction|].
          apply in_app_or in H. destruct H as [H|H].
          + right. left.
            destruct (wait_until_ids _ _ _ _ _ W H) as [a [r [A [_ M]]]].
            now exists a, r.
          + right. right. now apply frame_ids in H. }
      destruct (shape m1 H1) as [->|[[a1 [r1 [A1 ->]]]| ->]];
        destruct (shape m2 H2) as [->|[[a2 [r2 [A2 ->]]]| ->]];
        try discriminate E; try reflexivity.
      rewrite A1 in A2. now inversion A2.
    + intros func' args' kw' H. inversion H. subst func' args' kw'.
      rewrite R2, R4. split.
      * unfold unused_return_messages.
        destruct (_ && _); [apply repeat_length|reflexivity].
      * destruct (wait_until_messages n func args); [reflexivity|].
        unfold frame_messages.
        destruct (_ && _); [apply repeat_length|reflexivity].
  - (* a constant *)
    destruct v as [s| | | ].
    + rewrite (visit_const_str _ _ _ _ K).
      destruct (search png_re s && _ && _ && _ && _).
      * destruct (_in_whitelisted_functions n) as [e|w].
        -- exists (raise e), []. unfold failed. rewrite app_nil_r.
           repeat split; try (simpl; lia); try discriminate;
             try (intros ? ? []).
        -- destruct (negb w && _).
           ++ exists (ret tt), [mkMessage E7001 n s].
              repeat split; try (simpl; lia); try discriminate;
                try (intros m1 m2 [<-|[]] [<-|[]] _; reflexivity).
           ++ exists (ret tt), []. unfold done. rewrite app_nil_r.
              repeat split; try (simpl; lia); try discriminate;
                try (intros ? ? []).
      * exists (ret tt), []. unfold done. rewrite app_nil_r.
        repeat split; try (simpl; lia); try discriminate; try (intros ? ? []).
    + unfold visit_const. rewrite K. exists (ret tt), []. unfold done.
      rewrite app_nil_r.
      repeat split; try (simpl; lia); try discriminate; try (intros ? ? []).
    + unfold visit_const. rewrite K. exists (ret tt), []. unfold done.
      rewrite app_nil_r.
      repeat split; try (simpl; lia); try discriminate; try (intros ? ? []).
    + unfold visit_const. rewrite K. exists (ret tt), []. unfold done.
      rewrite app_nil_r.
      repeat split; try (simpl; lia); try discriminate; try (intros ? ? []).
Qed.

Lemma repeat_nonempty_In {A : Type} (P : A -> bool) (l : list A) (x : A)
      (m : message) :
  In x l -> P x = true -> In m (repeat m (length (filter P l))).
Proof.
  intros Hx Px.
  assert (H : In x (filter P l)) by now apply filter_In.
  destruct (filter P l); [contradiction|]. now left.
Qed.

(* ===================================================================== *)
(** * E7002: return value not used *)
(* ===================================================================== *)

(** C3, as stated, fails: after [my_match = stbt.match], the statement
    [my_match('a.png')] has a callee whose text ends with [match], its
    parent is an expression statement and the callee resolves to a
    definition of [_stbt.core]; yet no message is added, because [\b]
    wants the name to start a word. *)
Lemma visit_callfunc_name_inside_word :
  ends_with_name "my_match" /\
  isinstance (n_parent Samples.bare_my_match) is_Expr = true /\
  (exists func args kw d,
      n_kind Samples.bare_my_match = Call func args kw /\
      as_string func = "my_match" /\
      In d (_infer func) /\ In (def_root_name d) ["stbt"; "_stbt.core"]) /\
  visit_callfunc [] Samples.bare_my_match = done [].
Proof.
  split; [exists "my_", "match"; split; [reflexivity|simpl; tauto]|].
  split; [reflexivity|]. split; [|reflexivity].
  eexists _, _, _, Samples.core_match.
  split; [reflexivity|]. split; [reflexivity|].
  split; [now left|simpl; tauto].
Qed.

(** C3, amended: a call whose callee's text ends with one of
    [is_screen_black], [match], [match_text], [ocr], [wait_until] as a
    whole word (the name starts the text or follows a character that is
    not a letter, digit or underscore), whose parent is an expression
    statement and whose callee resolves to at least one definition with
    root module [stbt] or [_stbt.core], gets an E7002 message with the
    callee's text, whether the visit then returns or raises; a call whose
    parent is not an expression statement, in particular one under an
    assert, an assignment or a return, gets no E7002 message. *)
Theorem visit_callfunc_unused_return (self : StbtChecker) (n func : node)
        (args : list node) (kw : keywords_attr) :
  n_kind n = Call func args kw ->
  exists r emitted,
    visit_callfunc self n = (r, self ++ emitted) /\
    (ends_with_whole_name (as_string func) ->
     isinstance (n_parent n) is_Expr = true ->
     (exists d, In d (_infer func) /\
                In (def_root_name d) ["stbt"; "_stbt.core"]) ->
     In (mkMessage E7002 n (as_string func)) emitted) /\
    (isinstance (n_parent n) is_Expr = false -> of_rule E7002 emitted = []) /\
    (forall p, n_parent n = Some p ->
               n_kind p = Assert \/ n_kind p = Assign \/ n_kind p = Return ->
               of_rule E7002 emitted = []).
Proof.
  intros K. eexists _, _. split; [exact (visit_callfunc_pair _ _ _ _ _ K)|].
  destruct (of_rule_call n func args kw) as [_ [R2 _]]. cbv zeta in R2.
  rewrite R2.
  assert (N : isinstance (n_parent n) is_Expr = false ->
              unused_return_messages n func = []).
  { intros E. unfold unused_return_messages. now rewrite E, andb_false_r. }
  split; [|split].
  - intros S E [d [Hd Hr]]. apply in_or_app. left.
    unfold unused_return_messages.
    rewrite (search_unused_return _ S), E. cbn [andb].
    apply (repeat_nonempty_In in_stbt _ d); [assumption|].
    now apply str_in_In.
  - exact N.
  - intros p Hp Hk. apply N. unfold isinstance. rewrite Hp.
    now destruct Hk as [-> |[-> | ->]].
Qed.

Lemma visit_callfunc_unused_return_witness :
  n_kind Samples.bare_match =
  Call (Samples.expr Attribute "stbt.match" (Samples.one Samples.core_match))
       [Samples.str_const "a.png" None] (Keywords None) /\
  (exists r emitted,
      visit_callfunc [] Samples.bare_match = (r, emitted) /\
      In (mkMessage E7002 Samples.bare_match "stbt.match") emitted) /\
  (exists r emitted,
      visit_callfunc [] MoreSamples.wait_until_load = (r, emitted) /\
      In (mkMessage E7002 MoreSamples.wait_until_load "stbt.wait_until")
         emitted).
Proof.
  split; [reflexivity|]. split.
  - destruct (visit_callfunc_unused_return [] Samples.bare_match _ _ _ eq_refl)
      as [r [emitted [V [H _]]]].
    exists r, emitted. split; [exact V|]. apply H.
    + exists "stbt.", "match". repeat split. simpl. tauto.
    + reflexivity.
    + exists Samples.core_match. split; [now left|simpl; tauto].
  - destruct (visit_callfunc_unused_return [] MoreSamples.wait_until_load
                _ _ _ eq_refl) as [r [emitted [V [H _]]]].
    exists r, emitted. split; [exact V|]. apply H.
    + exists "stbt.", "wait_until". repeat split. simpl. tauto.
    + reflexivity.
    + exists Samples.core_wait_until. split; [now left|simpl; tauto].
Defined.

(* ===================================================================== *)
(** * E7003: the argument of [wait_until] *)
(* ===================================================================== *)

(** C4: on a call whose callee's text contains [wait_until] at the start
    of a word and that has a first argument, exactly one E7003 message,
    with the text of that argument, is added when [_is_callable] returns
    false on the argument, and none otherwise: none when it returns true,
    and none when it raises, in which case the visit ends with that
    exception. An argument that resolves to a lambda or to a function
    definition gets none; a literal, which resolves to nothing but
    constants, gets exactly one. *)
Theorem visit_callfunc_wait_until (self : StbtChecker) (n func arg : node)
        (rest : list node) (kw : keywords_attr) :
  n_kind n = Call func (arg :: rest) kw ->
  has_wait_until_token (as_string func) ->
  exists r emitted,
    visit_callfunc self n = (r, self ++ emitted) /\
    r = match _is_callable arg with
        | inr _ => ret tt
        | inl e => raise e
        end /\
    of_rule E7003 emitted =
      match _is_callable arg with
      | inr false => [mkMessage E7003 n (as_string arg)]
      | _ => []
      end /\
    (In (mkMessage E7003 n (as_string arg)) emitted <->
     _is_callable arg = ret false) /\
    ((exists d, In d (_infer arg) /\
                (def_class_of d = IsLambda \/ def_class_of d = IsFunctionDef))
     -> r = ret tt /\ of_rule E7003 emitted = []) /\
    (forall v, n_kind arg = Const v ->
               (forall d, In d (_infer arg) -> def_class_of d = IsConst) ->
               r = ret tt /\
               of_rule E7003 emitted = [mkMessage E7003 n (as_string arg)]).
Proof.
  intros K T. eexists _, _.
  split; [exact (visit_callfunc_pair _ _ _ _ _ K)|].
  destruct (of_rule_call n func (arg :: rest) kw) as [_ [_ [R3 _]]].
  cbv zeta in R3.
  assert (W : wait_until_messages n func (arg :: rest) =
              match _is_callable arg with
              | inl e => raise e
              | inr c => ret (if c then []
                              else [mkMessage E7003 n (as_string arg)])
              end).
  { unfold wait_until_messages.
    now rewrite (proj2 (search_wait_until_iff _) T). }
  assert (R : of_rule E7003 (call_messages n func (arg :: rest) kw) =
              match _is_callable arg with
              | inr false => [mkMessage E7003 n (as_string arg)]
              | _ => []
              end).
  { rewrite R3, W. now destruct (_is_callable arg) as [e|[|]]. }
  split; [rewrite W; now destruct (_is_callable arg)|].
  split; [exact R|]. split; [|split].
  - split.
    + intros H.
      assert (H' : In (mkMessage E7003 n (as_string arg))
                      (of_rule E7003 (call_messages n func (arg :: rest) kw))).
      { unfold of_rule. apply filter_In. now split. }
      rewrite R in H'. now destruct (_is_callable arg) as [e|[|]].
    + intros E.
      assert (H' : In (mkMessage E7003 n (as_string arg))
                      (of_rule E7003 (call_messages n func (arg :: rest) kw))).
      { rewrite R, E. now left. }
      unfold of_rule in H'. now apply filter_In in H'.
  - rewrite W, R. intros [d [Hd Hc]]. rewrite _is_callable_eq.
    destruct (_infer arg) as [|d0 l] eqn:I; [contradiction|].
    replace (existsb callable (d0 :: l)) with true; [now split|].
    symmetry. apply existsb_exists. exists d. split; [assumption|].
    unfold callable. now destruct Hc as [-> | ->].
  - rewrite W, R. intros v Kv Hc. rewrite _is_callable_eq, Kv.
    destruct (_infer arg) as [|d0 l] eqn:I; [now split|].
    replace (existsb callable (d0 :: l)) with false; [now split|].
    symmetry. apply not_true_is_false. intros E.
    apply existsb_exists in E. destruct E as [d [Hd Cd]].
    unfold callable in Cd. rewrite (Hc d Hd) in Cd. discriminate Cd.
Qed.

Lemma visit_callfunc_wait_until_witness :
  has_wait_until_token "stbt.wait_until" /\
  (exists emitted,
      visit_callfunc [] Samples.wait_until_str = done emitted /\
      of_rule E7003 emitted =
      [mkMessage E7003 Samples.wait_until_str "'a.png'"]) /\
  (exists emitted,
      visit_callfunc [] Samples.wait_until_lambda = done emitted /\
      of_rule E7003 emitted = []) /\
  (exists emitted,
      visit_callfunc [] MoreSamples.wait_until_load =
      failed AttributeError emitted /\
      of_rule E7003 emitted = []).
Proof.
  assert (T : has_wait_until_token "stbt.wait_until").
  { exists "stbt.", "". now split. }
  split; [exact T|]. split; [|split].
  - destruct (visit_callfunc_wait_until [] Samples.wait_until_str _ _ _ _
                eq_refl T) as [r [emitted [V [_ [_ [_ [_ H]]]]]]].
    destruct (H (VStr "a.png") eq_refl) as [-> R].
    { intros d [<-|[]]. reflexivity. }
    exists emitted. split; [exact V|exact R].
  - destruct (visit_callfunc_wait_until [] Samples.wait_until_lambda _ _ _ _
                eq_refl T) as [r [emitted [V [_ [_ [_ [H _]]]]]]].
    destruct H as [-> R].
    { exists Samples.lambda_def. split; [now left|now left]. }
    exists emitted. split; [exact V|exact R].
  - destruct (visit_callfunc_wait_until [] MoreSamples.wait_until_load
                _ _ _ _ eq_refl T) as [r [emitted [V [-> [R _]]]]].
    exists emitted. split; [exact V|exact R].
Defined.

(* ===================================================================== *)
(** * E7004: the [frame] argument in [FrameObject] properties *)
(* ===================================================================== *)

Lemma frame_not_supplied_iff (args : list node) (kw : keywords_attr)
      (d : definition) :
  frame_not_supplied args kw d = true <->
  isinstance_FunctionDef d = true /\
  exists i, index "frame" (def_argnames d) = ret i /\
            length (positional args) <= i /\
            name_in "frame" (keyword_names args kw) = false.
Proof.
  unfold frame_not_supplied. rewrite andb_true_iff. split.
  - intros [F H]. split; [assumption|].
    destruct (index "frame" (def_argnames d)) as [e|i]; [discriminate|].
    exists i. apply andb_true_iff in H. destruct H as [L N].
    apply Nat.leb_le in L. apply negb_true_iff in N. now repeat split.
  - intros [F [i [-> [L N]]]]. split; [assumption|].
    apply Nat.leb_le in L. cbn [ret]. now rewrite L, N.
Qed.

Lemma In_repeat_filter {A : Type} (P : A -> bool) (l : list A) (m : message) :
  In m (repeat m (length (filter P l))) <-> exists x, In x l /\ P x = true.
Proof.
  split.
  - destruct (filter P l) as [|x l'] eqn:E; [contradiction|]. intros _.
    exists x. apply filter_In. rewrite E. now left.
  - intros [x [Hx Px]]. now apply (repeat_nonempty_In P l x).
Qed.

(** The second check of [visit_callfunc] raises exactly when the callee's
    text matches, there is a first argument, and [_is_callable] raises on
    it. *)
Lemma wait_until_messages_raise (n func : node) (args : list node)
      (e : exception) :
  wait_until_messages n func args = raise e <->
  search wait_until_re (as_string func) = true /\
  exists arg rest, args = arg :: rest /\ _is_callable arg = raise e.
Proof.
  unfold wait_until_messages.
  destruct (search wait_until_re (as_string func)).
  - destruct args as [|arg rest].
    + split; [discriminate|]. intros [_ [a [r [E _]]]]. discriminate E.
    + destruct (_is_callable arg) as [e'|c] eqn:C; cbn [bind].
      * split.
        -- intros H. inversion H. subst e'. split; [reflexivity|].
           now exists arg, rest.
        -- intros [_ [a [r [E H]]]]. inversion E. subst a r.
           rewrite C in H. now inversion H.
      * split; [discriminate|]. intros [_ [a [r [E H]]]].
        inversion E. subst a r. rewrite C in H. discriminate H.
  - split; [discriminate|]. now intros [H _].
Qed.

(** C5 fails at [return wait_until_visible(load(y))] in a property of a
    [FrameObject] class, where [wait_until_visible(check, frame=None)] is
    a function of the script and [load] was defined under an [if]: the
    call is inside a marker-class property, its callee resolves to one
    function definition with [frame] at position 1, the call has one
    positional argument and no keyword, so the E7004 check would add one
    message; but the visit ends with [AttributeError], raised from
    [_is_function_named] under the E7003 check, before the E7004 loop is
    reached, and no message is added. *)
Theorem frame_check_not_reached :
  _in_frameobject MoreSamples.wait_until_visible_load = true /\
  _in_property MoreSamples.wait_until_visible_load = true /\
  (exists func args kw,
      n_kind MoreSamples.wait_until_visible_load = Call func args kw /\
      _infer func = [MoreSamples.wait_until_visible] /\
      isinstance_FunctionDef MoreSamples.wait_until_visible = true /\
      index "frame" (def_argnames MoreSamples.wait_until_visible) = ret 1 /\
      length (positional args) = 1 /\
      name_in "frame" (keyword_names args kw) = false /\
      frame_messages MoreSamples.wait_until_visible_load func args kw =
      [mkMessage E7004 MoreSamples.wait_until_visible_load
                 "wait_until_visible(load(y))"]) /\
  visit_callfunc [] MoreSamples.wait_until_visible_load =
  failed AttributeError [].
Proof.
  split; [reflexivity|]. split; [reflexivity|]. split; [|reflexivity].
  eexists _, _, _. split; [reflexivity|]. repeat split.
Qed.

(** X13: on a call inside a property of a [FrameObject] class, the visit
    raises exactly when the E7003 check does (the callee's text has
    [wait_until] at the start of a word and [_is_callable] raises on the
    first argument), and then no E7004 message is added. When the visit
    returns, an E7004 message with the call's text is added if and only if
    the callee resolves to a function definition that has a parameter
    [frame], at position [i], while the call has at most [i] positional
    arguments and no keyword argument named [frame]; when the callee
    resolves to exactly one such definition, that is exactly one message,
    and none when enough positional arguments or a [frame=] keyword are
    given. *)
Theorem visit_callfunc_frame_missing (self : StbtChecker) (n func : node)
        (args : list node) (kw : keywords_attr) :
  n_kind n = Call func args kw ->
  _in_frameobject n = true ->
  _in_property n = true ->
  exists r emitted,
    visit_callfunc self n = (r, self ++ emitted) /\
    (forall e,
        r = raise e <->
        search wait_until_re (as_string func) = true /\
        exists arg rest, args = arg :: rest /\ _is_callable arg = raise e) /\
    (forall e, r = raise e -> of_rule E7004 emitted = []) /\
    (r = ret tt ->
     (In (mkMessage E7004 n (as_string n)) emitted <->
      exists d i,
        In d (_infer func) /\ isinstance_FunctionDef d = true /\
        index "frame" (def_argnames d) = ret i /\
        length (positional args) <= i /\
        name_in "frame" (keyword_names args kw) = false) /\
     (forall d i,
         _infer func = [d] ->
         isinstance_FunctionDef d = true ->
         index "frame" (def_argnames d) = ret i ->
         of_rule E7004 emitted =
         if (length (positional args) <=? i)%nat &&
            negb (name_in "frame" (keyword_names args kw))
         then [mkMessage E7004 n (as_string n)] else [])).
Proof.
  intros K C P. eexists _, _.
  split; [exact (visit_callfunc_pair _ _ _ _ _ K)|].
  destruct (of_rule_call n func args kw) as [_ [_ [_ R4]]]. cbv zeta in R4.
  assert (F : frame_messages n func args kw =
              repeat (mkMessage E7004 n (as_string n))
                     (length (filter (frame_not_supplied args kw)
                                     (_infer func)))).
  { unfold frame_messages. now rewrite C, P. }
  split; [|split].
  - intros e. pose proof (wait_until_messages_raise n func args e) as WR.
    destruct (wait_until_messages n func args) as [e'|added].
    + rewrite <- WR. unfold raise. split; intros H; inversion H; reflexivity.
    + rewrite <- WR. split; discriminate.
  - intros e E. rewrite R4.
    now destruct (wait_until_messages n func args).
  - intros E.
    destruct (wait_until_messages n func args) as [e'|added] eqn:W;
      [discriminate E|].
    split.
    + transitivity (In (mkMessage E7004 n (as_string n))
                       (frame_messages n func args kw)).
      * rewrite <- R4. unfold of_rule. rewrite filter_In. tauto.
      * rewrite F, In_repeat_filter. split.
        -- intros [d [Hd H]]. apply frame_not_supplied_iff in H.
           destruct H as [Fd [i H]]. now exists d, i.
        -- intros [d [i [Hd [Fd H]]]]. exists d. split; [assumption|].
           apply frame_not_supplied_iff. split; [assumption|]. now exists i.
    + intros d i I Fd Ix. rewrite R4, F, I. simpl.
      unfold frame_not_supplied. rewrite Fd, Ix. cbn [andb ret].
      now destruct (_ && _).
Qed.

Lemma visit_callfunc_frame_missing_witness :
  _in_frameobject Samples.match_in_property = true /\
  _in_property Samples.match_in_property = true /\
  (exists emitted,
      visit_callfunc [] Samples.match_in_property = done emitted /\
      of_rule E7004 emitted =
      [mkMessage E7004 Samples.match_in_property "stbt.match('a.png')"]) /\
  (exists emitted,
      visit_callfunc [] Samples.match_with_frame = done emitted /\
      of_rule E7004 emitted = []) /\
  (exists emitted,
      visit_callfunc [] MoreSamples.wait_until_visible_load =
      failed AttributeError emitted /\
      of_rule E7004 emitted = []).
Proof.
  split; [reflexivity|]. split; [reflexivity|]. split; [|split].
  - destruct (visit_callfunc_frame_missing [] Samples.match_in_property _ _ _
                eq_refl eq_refl eq_refl) as [r [emitted [V [_ [_ H]]]]].
    assert (E : r = ret tt) by (now inversion V).
    exists emitted. split; [now rewrite V, E|].
    exact (proj2 (H E) Samples.core_match 1 eq_refl eq_refl eq_refl).
  - destruct (visit_callfunc_frame_missing [] Samples.match_with_frame _ _ _
                eq_refl eq_refl eq_refl) as [r [emitted [V [_ [_ H]]]]].
    assert (E : r = ret tt) by (now inversion V).
    exists emitted. split; [now rewrite V, E|].
    exact (proj2 (H E) Samples.core_match 1 eq_refl eq_refl eq_refl).
  - destruct (visit_callfunc_frame_missing []
                MoreSamples.wait_until_visible_load _ _ _
                eq_refl eq_refl eq_refl) as [r [emitted [V [_ [H _]]]]].
    assert (E : r = raise AttributeError) by (now inversion V).
    exists emitted. split; [now rewrite V, E|]. exact (H _ E).
Defined.

(* ===================================================================== *)
(** * [_in_property] and [_in_frameobject] *)
(* ===================================================================== *)

(** C6, as stated, fails: for a call in a plain function defined inside a
    property, the first function definition met on the way up is not a
    property, yet [_in_property] is true: the walk goes on to the
    property outside. *)
Lemma in_property_looks_past_first_function :
  in_property_first_found Samples.match_in_helper = false /\
  _in_property Samples.match_in_helper = true.
Proof. split; reflexivity. Qed.

(** C6, amended: [_in_property] is true if and only if the node or one of
    its ancestors is a function definition that carries the built-in
    property decorator; so it is true whenever the innermost enclosing
    function definition is a property, and false when no function
    definition encloses the node. *)
Theorem in_property_any_enclosing (n : node) :
  (_in_property n = true <->
   exists m decoratornames,
     In m (lineage n) /\ n_kind m = FunctionDef decoratornames /\
     In "__builtin__.property" decoratornames) /\
  (in_property_first_found n = true -> _in_property n = true) /\
  ((forall m decoratornames,
       In m (lineage n) -> n_kind m <> FunctionDef decoratornames) ->
   _in_property n = false).
Proof.
  split; [apply _in_property_iff|]. split; [apply first_found_property|].
  intros H. apply not_true_is_false. intros E.
  apply _in_property_iff in E. destruct E as [m [ds [Hm [K _]]]].
  exact (H m ds Hm K).
Qed.

(** C7, as stated, fails: for a call in a plain class defined inside a
    property of a [FrameObject] class, the first class definition met on
    the way up does not descend from [stbt.FrameObject], yet
    [_in_frameobject] is true. *)
Lemma in_frameobject_looks_past_first_class :
  in_marker_class_first_found Samples.match_in_plain_class = false /\
  _in_frameobject Samples.match_in_plain_class = true.
Proof. split; reflexivity. Qed.

(** C7, amended: [_in_frameobject] is true if and only if the node or one
    of its ancestors is a class definition whose ancestors include
    [stbt.FrameObject]; so it is true whenever the innermost enclosing
    class is such a class, and false when no class encloses the node. *)
Theorem in_frameobject_any_enclosing (n : node) :
  (_in_frameobject n = true <->
   exists m ancestors,
     In m (lineage n) /\ n_kind m = ClassDef ancestors /\
     In "stbt.FrameObject" ancestors) /\
  (in_marker_class_first_found n = true -> _in_frameobject n = true) /\
  ((forall m ancestors,
       In m (lineage n) -> n_kind m <> ClassDef ancestors) ->
   _in_frameobject n = false).
Proof.
  split; [apply _in_frameobject_iff|].
  split; [apply first_found_marker_class|].
  intros H. apply not_true_is_false. intros E.
  apply _in_frameobject_iff in E. destruct E as [m [ds [Hm [K _]]]].
  exact (H m ds Hm K).
Qed.


(* ===================================================================== *)
(** * [_is_function_named] and [_is_callable] *)
(* ===================================================================== *)

Lemma _is_function_named_ends (func : node) (name : string) :
  (_is_function_named func name = ret true <->
   as_string func = name \/ stops_with name (_infer func) (ret name)) /\
  (forall e, _is_function_named func name = raise e <->
             as_string func <> name /\
             stops_with name (_infer func) (raise e)) /\
  (_is_function_named func name = ret false <->
   as_string func <> name /\ passes name (_infer func)).
Proof.
  unfold _is_function_named.
  destruct (_is_function_named_loop_ends name (_infer func)) as [T [R F]].
  destruct (String.eqb_spec (as_string func) name) as [E|N].
  - split; [|split].
    + split; [now left|reflexivity].
    + intros e. split; [discriminate|]. now intros [C _].
    + split; [discriminate|]. now intros [C _].
  - split; [|split].
    + rewrite T. split; [now right|]. now intros [C|C].
    + intros e. rewrite R. split; [now split|]. now intros [_ C].
    + rewrite F. split; [now split|]. now intros [_ C].
Qed.

(** C8 fails at the call [load(y)], where [y] makes the call impossible
    to infer and [load] was defined under an [if]: resolving the call
    yields no definition and its callee is not identified as
    [functools.partial], so the claim has [_is_callable] return false, but
    it raises [AttributeError], from [funcdef.parent.name] in
    [_is_function_named]. It fails as well at [bind(f, 1)], where [bind]
    resolves to that function and then to [functools.partial]: the callee
    is identified by resolution, so the claim has [_is_callable] return
    true, but the exception is raised at the first candidate. *)
Theorem is_callable_raises_on_unnamed_parent :
  (_infer MoreSamples.load_call = [] /\
   (exists func args kw,
       n_kind MoreSamples.load_call = Call func args kw /\
       ~ identified_as func "functools.partial") /\
   _is_callable MoreSamples.load_call = raise AttributeError) /\
  (_infer MoreSamples.bind_call = [] /\
   (exists func args kw,
       n_kind MoreSamples.bind_call = Call func args kw /\
       identified_as func "functools.partial") /\
   _is_callable MoreSamples.bind_call = raise AttributeError).
Proof.
  split; (split; [reflexivity|]); (split; [|reflexivity]); eexists _, _, _;
    (split; [reflexivity|]).
  - intros [H|[d [[<-|[]] [_ H]]]]; discriminate H.
  - right. exists MoreSamples.functools_partial.
    split; [right; now left|now split].
Qed.

(** X14: [_is_callable] in the order of the source. When resolving the
    node yields at least one definition it returns, and returns true if
    and only if one of them is callable. When resolving yields nothing and
    the node is not a call it returns false. When resolving yields nothing
    and the node is a call, it ends the way [_is_function_named] ends on
    the callee and [functools.partial]: true when the callee has that text
    or when, among the definitions the callee resolves to, the first
    function definition that either has that qualified name or has no
    qualified name at all has that name; an exception when that one's
    parent has no name; false when every function definition among them
    has another qualified name. When all those parents have names, it
    returns true if and only if the callee is identified as
    [functools.partial], by its text or by resolution. *)
Theorem is_callable_in_source_order (n : node) :
  (_infer n <> [] ->
   exists b,
     _is_callable n = ret b /\
     (b = true <-> exists d, In d (_infer n) /\ callable d = true)) /\
  (_infer n = [] ->
   (forall func args kw, n_kind n <> Call func args kw) ->
   _is_callable n = ret false) /\
  (forall func args kw,
      _infer n = [] ->
      n_kind n = Call func args kw ->
      _is_callable n = _is_function_named func "functools.partial" /\
      (_is_callable n = ret true <->
       as_string func = "functools.partial" \/
       stops_with "functools.partial" (_infer func)
                  (ret "functools.partial")) /\
      (forall e, _is_callable n = raise e <->
                 as_string func <> "functools.partial" /\
                 stops_with "functools.partial" (_infer func) (raise e)) /\
      (_is_callable n = ret false <->
       as_string func <> "functools.partial" /\
       passes "functools.partial" (_infer func)) /\
      (named_parents (_infer func) ->
       exists b,
         _is_callable n = ret b /\
         (b = true <-> identified_as func "functools.partial"))).
Proof.
  rewrite _is_callable_eq. split; [|split].
  - intros I. destruct (_infer n) as [|d l]; [contradiction|].
    eexists. split; [reflexivity|]. now rewrite existsb_exists.
  - intros I N. rewrite I. destruct (n_kind n); try reflexivity.
    now destruct (N func args keywords).
  - intros func args kw I K. rewrite I, K.
    destruct (_is_function_named_ends func "functools.partial") as [T [R F]].
    split; [reflexivity|]. split; [exact T|]. split; [exact R|].
    split; [exact F|]. apply _is_function_named_named.
Qed.

Lemma is_callable_in_source_order_witness :
  _is_callable (Samples.expr Name "f" (Samples.one Samples.core_match)) =
  ret true /\
  _is_callable (Samples.expr Name "f" StopIteration) = ret false /\
  _is_callable Samples.partial_call = ret true /\
  _is_callable MoreSamples.bind_call = raise AttributeError.
Proof.
  split; [|split; [|split]].
  - destruct (proj1 (is_callable_in_source_order
                       (Samples.expr Name "f"
                                     (Samples.one Samples.core_match))))
      as [b [E I]]; [discriminate|].
    rewrite E. f_equal. apply I. exists Samples.core_match.
    split; [now left|reflexivity].
  - apply (proj1 (proj2 (is_callable_in_source_order
                           (Samples.expr Name "f" StopIteration))));
      [reflexivity|discriminate].
  - apply (proj2 (proj2 (is_callable_in_source_order Samples.partial_call))
             _ _ _ eq_refl eq_refl). now left.
  - apply (proj2 (proj2 (is_callable_in_source_order MoreSamples.bind_call))
             _ _ _ eq_refl eq_refl).
    split; [discriminate|].
    exists [], MoreSamples.load_under_if, [MoreSamples.functools_partial].
    split; [reflexivity|]. split; [intros d []|now split].
Defined.

(* ===================================================================== *)
(** * [_infer] *)
(* ===================================================================== *)

(** C9, as stated, fails: an inference that yields one definition and
    then raises gives that definition, not the empty sequence. *)
Lemma infer_keeps_what_came_before_failure :
  raises (infer Samples.half_inferred) = true /\
  _infer Samples.half_inferred = [Samples.core_match].
Proof. split; reflexivity. Qed.

(** C9, amended: [_infer] returns the definitions that the inference
    yielded before it stopped or raised, in order and without [YES]: no
    exception of the inference propagates, and the result is empty when
    the inference raises at once. On a call whose callee has no candidate
    at all, every check that needs a resolved callee is silent:
    [_is_function_named] on the callee returns, and returns true only for
    the callee's own text, and [visit_callfunc] adds no E7002 and no E7004
    message. *)
Theorem infer_never_raises :
  (forall expr,
      map Inferred (_infer expr) =
      filter (fun i => negb (is_YES i)) (yielded (infer expr)) /\
      ~ In YES (map Inferred (_infer expr))) /\
  (forall expr e, infer expr = Raise e -> _infer expr = []) /\
  (forall self n func args kw,
      n_kind n = Call func args kw ->
      _infer func = [] ->
      (forall name,
          _is_function_named func name =
          ret (String.eqb (as_string func) name)) /\
      exists r emitted,
        visit_callfunc self n = (r, self ++ emitted) /\
        of_rule E7002 emitted = [] /\ of_rule E7004 emitted = []).
Proof.
  split; [|split].
  - intros expr. split; [apply _infer_loop_filter|].
    intros H. apply in_map_iff in H. destruct H as [d [E _]]. discriminate E.
  - intros expr e E. unfold _infer. now rewrite E.
  - intros self n func args kw K I. split.
    + intros name. unfold _is_function_named. rewrite I.
      now destruct (String.eqb (as_string func) name).
    + eexists _, _. split; [exact (visit_callfunc_pair _ _ _ _ _ K)|].
      destruct (of_rule_call n func args kw) as [_ [R2 [_ R4]]].
      cbv zeta in R2, R4.
      rewrite R2, R4. unfold unused_return_messages, frame_messages.
      rewrite I. simpl. split.
      * now destruct (_ && _).
      * destruct (wait_until_messages n func args); [reflexivity|].
        now destruct (_ && _).
Qed.
(* ===================================================================== *)
(** * [_is_calculated_value] *)
(* ===================================================================== *)

Lemma split_on_nonempty (sep : ascii) (l : list ascii) : split_on sep l <> [].
Proof.
  destruct l as [|c l]; simpl; [discriminate|].
  destruct (Ascii.eqb c sep); [discriminate|].
  destruct (split_on sep l); discriminate.
Qed.

Lemma split_on_nosep (sep : ascii) (w : list ascii) :
  ~ In sep w -> split_on sep w = [w].
Proof.
  induction w as [|c w IH]; intros H; simpl; [reflexivity|].
  destruct (Ascii.eqb_spec c sep) as [->|N].
  - exfalso. apply H. now left.
  - rewrite IH; [reflexivity|]. intros Hin. apply H. now right.
Qed.

Lemma split_on_app (sep : ascii) (a b : list ascii) :
  split_on sep (a ++ sep :: b) = split_on sep a ++ split_on sep b.
Proof.
  induction a as [|c a IH]; simpl.
  - now rewrite Ascii.eqb_refl.
  - destruct (Ascii.eqb c sep); [now rewrite IH|].
    rewrite IH. pose proof (split_on_nonempty sep a) as N.
    now destruct (split_on sep a).
Qed.

Lemma last_app_nonempty {A : Type} (l1 l2 : list A) (d : A) :
  l2 <> [] -> last (l1 ++ l2) d = last l2 d.
Proof.
  intros N. induction l1 as [|x l1 IH]; [reflexivity|].
  simpl app. rewrite last_cons, <- IH.
  destruct (l1 ++ l2) eqn:E.
  - apply app_eq_nil in E. now destruct E.
  - now rewrite !last_cons.
Qed.

Lemma cut_at_last (sep : ascii) (l : list ascii) :
  ~ In sep l \/ exists pre w, l = pre ++ sep :: w /\ ~ In sep w.
Proof.
  induction l as [|c l [IH|[pre [w [E N]]]]].
  - left. intros [].
  - destruct (Ascii.eqb_spec c sep) as [->|Ne].
    + right. now exists [], l.
    + left. intros [H|H]; [now apply Ne|now apply IH].
  - right. exists (c :: pre), w. now rewrite E.
Qed.

Lemma last_split_on (sep : ascii) (l w d : list ascii) :
  ~ In sep w ->
  (last (split_on sep l) d = w <-> l = w \/ exists pre, l = pre ++ sep :: w).
Proof.
  intros Nw. split.
  - intros H. destruct (cut_at_last sep l) as [N|[pre [w' [E N]]]].
    + rewrite (split_on_nosep _ _ N) in H. now left.
    + right. exists pre. rewrite E in H.
      rewrite split_on_app, (split_on_nosep _ _ N) in H.
      rewrite last_app_nonempty in H by discriminate.
      simpl in H. now rewrite <- H.
  - intros [->|[pre ->]].
    + now rewrite (split_on_nosep _ _ Nw).
    + rewrite split_on_app, (split_on_nosep _ _ Nw).
      now rewrite last_app_nonempty by discriminate.
Qed.

Lemma last_map {A B : Type} (f : A -> B) (l : list A) (d : A) :
  last (map f l) (f d) = f (last l d).
Proof.
  induction l as [|x l IH]; [reflexivity|].
  simpl map. destruct l; [reflexivity|]. exact IH.
Qed.

Lemma last_component_iff (s w : string) :
  char_in "." w = false ->
  (last (split s ".") "" = w <-> s = w \/ ends_with ("." ++ w) s).
Proof.
  intros Nw. apply char_in_false in Nw. unfold split, ends_with.
  change ""%string with (string_of_list_ascii []). rewrite last_map.
  split.
  - intros H. apply (f_equal chars) in H. rewrite chars_of_string in H.
    apply (last_split_on _ _ _ _ Nw) in H. destruct H as [H|[pre H]].
    + left. now apply chars_inj.
    + right. exists (string_of_list_ascii pre). apply chars_inj.
      now rewrite H, chars_app, chars_of_string.
  - intros H. rewrite <- (string_of_chars w). f_equal.
    apply (last_split_on _ _ _ _ Nw). destruct H as [->|[pre ->]].
    + now left.
    + right. exists (chars pre). now rewrite chars_app.
Qed.

(** X1: [_is_calculated_value] is true exactly when the parent of the node
    is a binary operation, or a call whose callee's text is [join] or
    ends with [.join]: [os.path.join(..)], [sep.join(..)], [join(..)],
    but not [rejoin(..)]. *)
Theorem is_calculated_value_iff (n : node) :
  _is_calculated_value n = true <->
  exists p,
    n_parent n = Some p /\
    (n_kind p = BinOp \/
     exists func args kw,
       n_kind p = Call func args kw /\
       (as_string func = "join" \/ ends_with ".join" (as_string func))).
Proof.
  unfold _is_calculated_value, isinstance.
  destruct (n_parent n) as [p|].
  - split.
    + intros H. exists p. split; [reflexivity|].
      destruct (n_kind p); try discriminate H; [now left|].
      right. exists func, args, keywords. split; [reflexivity|].
      cbn [is_BinOp orb] in H. apply String.eqb_eq in H.
      now apply (last_component_iff _ "join").
    + intros [q [E [K|[func [args [kw [K H]]]]]]];
        inversion E; subst q; rewrite K; [reflexivity|].
      cbn [is_BinOp orb]. apply String.eqb_eq.
      now apply (last_component_iff _ "join").
  - split; [discriminate|]. intros [p [E _]]. discriminate E.
Qed.

Example is_calculated_value_samples :
  _is_calculated_value MoreSamples.joined_png = true /\
  _is_calculated_value Samples.missing_png = false /\
  _is_calculated_value
    (Samples.str_const "a.png"
       (Some (Samples.call (Samples.expr Name "rejoin" StopIteration) []
                           "rejoin('a.png')" Samples.module_node))) = false.
Proof. repeat split. Qed.

(* ===================================================================== *)
(** * [_is_pattern_value] and [_in_whitelisted_functions] *)
(* ===================================================================== *)

Lemma search_star_iff (s : string) :
  search star_re s = true <-> In "*"%char (chars s).
Proof.
  unfold search. split.
  - intros H. apply search_from_elim in H.
    destruct H as [pre [suf [E M]]]. rewrite E.
    unfold star_re in M. cbn [rmatch atom_matches] in M.
    destruct suf as [|c suf]; [discriminate M|].
    apply andb_true_iff in M. destruct M as [M _].
    apply Ascii.eqb_eq in M. subst c.
    apply in_or_app. right. now left.
  - intros H. apply in_split in H. destruct H as [pre [suf ->]].
    apply search_from_intro. reflexivity.
Qed.

(** [visit_const] returns without a message once one of the guards
    holds. *)
Lemma visit_const_guarded (isfile : filesystem) (self : StbtChecker)
      (n : node) (s : string) :
  n_kind n = Const (VStr s) ->
  _is_calculated_value n = true \/ search star_re s = true \/
  _is_whitelisted_name s = true \/ _in_whitelisted_functions n = ret true ->
  visit_const isfile self n = done self.
Proof.
  intros K H. rewrite (visit_const_str _ _ _ _ K).
  destruct H as [H|[H|[H|H]]]; rewrite H; cbn [negb andb];
    rewrite ?andb_false_r; try reflexivity.
  now destruct (_ && _).
Qed.

(** X2: for a string literal, [_is_pattern_value] answers true exactly
    when the string contains an asterisk, and such a literal is never
    reported by [visit_const], whatever is on disk. *)
Theorem pattern_value_never_reported (isfile : filesystem)
        (self : StbtChecker) (n : node) (s : string) :
  n_kind n = Const (VStr s) ->
  (_is_pattern_value n = ret true <-> In "*"%char (chars s)) /\
  (In "*"%char (chars s) -> visit_const isfile self n = done self).
Proof.
  intros K. split.
  - unfold _is_pattern_value. rewrite K. rewrite <- search_star_iff. split.
    + intros H. now inversion H.
    + now intros ->.
  - intros H. apply (visit_const_guarded _ _ _ _ K).
    right. left. now apply search_star_iff.
Qed.

Lemma pattern_value_never_reported_witness :
  n_kind MoreSamples.glob_png = Const (VStr "images/*.png") /\
  _is_pattern_value MoreSamples.glob_png = ret true /\
  visit_const Samples.nothing_on_disk [] MoreSamples.glob_png = done [].
Proof.
  destruct (pattern_value_never_reported Samples.nothing_on_disk []
              MoreSamples.glob_png "images/*.png" eq_refl) as [I V].
  assert (H : In "*"%char (chars "images/*.png")) by (simpl; tauto).
  split; [reflexivity|]. split; [now apply I|now apply V].
Defined.

Lemma ends_at_name_nil (func : node) (r : result bool) :
  ~ ends_at_name func [] r.
Proof. intros [before [x [after [E _]]]]. now destruct before. Qed.

Lemma ends_at_name_cons (func : node) (x : string) (names : list string)
      (r : result bool) :
  ends_at_name func (x :: names) r <->
  _is_function_named func x = r \/
  (_is_function_named func x = ret false /\ ends_at_name func names r).
Proof.
  unfold ends_at_name. split.
  - intros [before [y [after [E [B H]]]]].
    destruct before as [|b before]; simpl in E; injection E as -> ->.
    + now left.
    + right. split; [apply B; now left|].
      exists before, y, after. split; [reflexivity|].
      split; [|exact H]. intros z Hz. apply B. now right.
  - intros [H|[F [before [y [after [E [B H]]]]]]].
    + exists [], x, names. split; [reflexivity|]. split; [intros y []|exact H].
    + exists (x :: before), y, after. rewrite E. split; [reflexivity|].
      split; [|exact H]. intros z [<-|Hz]; [exact F|now apply B].
Qed.

(** The three ways the [any] of [_in_whitelisted_functions] can end. *)
Lemma any_function_named_ends (func : node) (names : list string) :
  (any_function_named func names = ret true <->
   ends_at_name func names (ret true)) /\
  (forall e, any_function_named func names = raise e <->
             ends_at_name func names (raise e)) /\
  (any_function_named func names = ret false <->
   forall x, In x names -> _is_function_named func x = ret false).
Proof.
  induction names as [|x names [IHt [IHr IHf]]].
  - split; [|split].
    + split; [discriminate|]. intros H. now apply ends_at_name_nil in H.
    + intros e. split; [discriminate|]. intros H.
      now apply ends_at_name_nil in H.
    + split; [intros _ x []|reflexivity].
  - cbn [any_function_named].
    destruct (_is_function_named func x) as [e'|[|]] eqn:E; cbn [bind].
    + split; [|split].
      * rewrite ends_at_name_cons, E. split; [discriminate|].
        intros [H|[H _]]; discriminate H.
      * intros e. rewrite ends_at_name_cons, E. split.
        -- intros H. left. inversion H. reflexivity.
        -- intros [H|[H _]]; [|discriminate H]. inversion H. reflexivity.
      * split; [discriminate|]. intros H.
        specialize (H x (or_introl eq_refl)). rewrite E in H. discriminate H.
    + split; [|split].
      * rewrite ends_at_name_cons, E. split; [now left|reflexivity].
      * intros e. rewrite ends_at_name_cons, E. split; [discriminate|].
        intros [H|[H _]]; discriminate H.
      * split; [discriminate|]. intros H.
        specialize (H x (or_introl eq_refl)). rewrite E in H. discriminate H.
    + split; [|split].
      * rewrite IHt, ends_at_name_cons, E. split.
        -- intros H. right. now split.
        -- intros [H|[_ H]]; [discriminate H|exact H].
      * intros e. rewrite IHr, ends_at_name_cons, E. split.
        -- intros H. right. now split.
        -- intros [H|[_ H]]; [discriminate H|exact H].
      * rewrite IHf. split.
        -- intros H y [<-|Hy]; [exact E|now apply H].
        -- intros H y Hy. apply H. now right.
Qed.

(** X3: [_in_whitelisted_functions] on a node whose parent is a call
    tries the names [cv2.imwrite], [re.match], [re.search],
    [stbt.save_frame], [_stbt.core.save_frame] in that order, and ends at
    the first name on which [_is_function_named] answers true or raises;
    it returns false when [_is_function_named] returns false on all five,
    and also when the parent is not a call. When it returns true the
    callee is identified as one of the names, by its text or by a function
    definition it resolves to (so an imported [save_frame] counts under
    any local name); when it raises, the callee resolves to a function
    definition whose parent has no name; when every function definition
    the callee resolves to has a parent with a name, it returns, and
    returns true exactly when the callee is identified as one of the
    names. A string literal on which it returns true is never reported by
    [visit_const]; one on which it raises gets no message either. *)
Theorem whitelisted_function_argument (isfile : filesystem)
        (self : StbtChecker) (n : node) :
  (forall p func args kw,
      n_parent n = Some p -> n_kind p = Call func args kw ->
      (_in_whitelisted_functions n = ret true <->
       ends_at_name func whitelisted_functions (ret true)) /\
      (forall e, _in_whitelisted_functions n = raise e <->
                 ends_at_name func whitelisted_functions (raise e)) /\
      (_in_whitelisted_functions n = ret false <->
       forall x, In x whitelisted_functions ->
                 _is_function_named func x = ret false) /\
      (named_parents (_infer func) ->
       exists b,
         _in_whitelisted_functions n = ret b /\
         (b = true <->
          exists name,
            In name whitelisted_functions /\ identified_as func name))) /\
  (isinstance (n_parent n) is_Call = false ->
   _in_whitelisted_functions n = ret false) /\
  (_in_whitelisted_functions n = ret true ->
   exists p func args kw name,
     n_parent n = Some p /\ n_kind p = Call func args kw /\
     In name whitelisted_functions /\ identified_as func name) /\
  (forall e,
      _in_whitelisted_functions n = raise e ->
      exists p func args kw d,
        n_parent n = Some p /\ n_kind p = Call func args kw /\
        In d (_infer func) /\ isinstance_FunctionDef d = true /\
        qualified_name d = raise e) /\
  (forall s, n_kind n = Const (VStr s) ->
             _in_whitelisted_functions n = ret true ->
             visit_const isfile self n = done self) /\
  (forall s e, n_kind n = Const (VStr s) ->
               _in_whitelisted_functions n = raise e ->
               snd (visit_const isfile self n) = self).
Proof.
  split; [|split; [|split; [|split; [|split]]]].
  - intros p func args kw E K. unfold _in_whitelisted_functions.
    rewrite E, K.
    destruct (any_function_named_ends func whitelisted_functions)
      as [T [R F]].
    split; [exact T|]. split; [exact R|]. split; [exact F|].
    apply any_function_named_named.
  - unfold _in_whitelisted_functions, isinstance.
    destruct (n_parent n) as [p|]; [|reflexivity].
    now destruct (n_kind p).
  - unfold _in_whitelisted_functions.
    destruct (n_parent n) as [p|]; [|discriminate].
    destruct (n_kind p) eqn:K; try discriminate. intros H.
    apply any_function_named_true in H. destruct H as [name [Hn H]].
    exists p, func, args, keywords, name.
    split; [reflexivity|]. split; [exact K|].
    split; [assumption|]. now apply _is_function_named_true.
  - intros e. unfold _in_whitelisted_functions.
    destruct (n_parent n) as [p|]; [|discriminate].
    destruct (n_kind p) eqn:K; try discriminate. intros H.
    apply any_function_named_raise in H. destruct H as [name [Hn H]].
    apply _is_function_named_raise in H. destruct H as [d H].
    exists p, func, args, keywords, d.
    split; [reflexivity|]. split; [exact K|]. exact H.
  - intros s K H. apply (visit_const_guarded _ _ _ _ K). tauto.
  - intros s e K H. rewrite (visit_const_str _ _ _ _ K), H.
    now destruct (_ && _).
Qed.

Lemma whitelisted_function_argument_witness :
  _in_whitelisted_functions MoreSamples.saved_png = ret true /\
  visit_const Samples.nothing_on_disk [] MoreSamples.saved_png = done [] /\
  _in_whitelisted_functions MoreSamples.joined_png = ret false /\
  _in_whitelisted_functions MoreSamples.save_after_unnamed_png =
  raise AttributeError /\
  snd (visit_const Samples.nothing_on_disk []
                   MoreSamples.save_after_unnamed_png) = [].
Proof.
  assert (S : _in_whitelisted_functions MoreSamples.saved_png = ret true).
  { apply (proj1 (whitelisted_function_argument Samples.nothing_on_disk []
                    MoreSamples.saved_png) _ _ _ _ eq_refl eq_refl).
    exists ["cv2.imwrite"; "re.match"; "re.search"; "stbt.save_frame"],
           "_stbt.core.save_frame", [].
    split; [reflexivity|]. split; [|reflexivity].
    intros y [<-|[<-|[<-|[<-|[]]]]]; reflexivity. }
  assert (U : _in_whitelisted_functions MoreSamples.save_after_unnamed_png =
              raise AttributeError).
  { apply (proj1 (whitelisted_function_argument Samples.nothing_on_disk []
                    MoreSamples.save_after_unnamed_png)
             _ _ _ _ eq_refl eq_refl).
    exists [], "cv2.imwrite",
           ["re.match"; "re.search"; "stbt.save_frame";
            "_stbt.core.save_frame"].
    split; [reflexivity|]. split; [intros y []|reflexivity]. }
  split; [exact S|]. split; [|split; [|split]].
  - exact (proj1 (proj2 (proj2 (proj2 (proj2
             (whitelisted_function_argument Samples.nothing_on_disk []
                MoreSamples.saved_png))))) "out.png" eq_refl S).
  - apply (proj1 (whitelisted_function_argument Samples.nothing_on_disk []
                    MoreSamples.joined_png) _ _ _ _ eq_refl eq_refl).
    intros x [<-|[<-|[<-|[<-|[<-|[]]]]]]; reflexivity.
  - exact U.
  - exact (proj2 (proj2 (proj2 (proj2 (proj2
             (whitelisted_function_argument Samples.nothing_on_disk []
                MoreSamples.save_after_unnamed_png)))))
             "out.png" AttributeError eq_refl U).
Defined.

(** X15: [_is_function_named] in the order of the source. It returns
    true when the callee's text is the name. Otherwise it goes through
    the definitions the callee resolves to, passing over what is not a
    function definition, and ends at the first function definition whose
    qualified name is the name, where it returns true, or whose parent
    has no name, where it raises; it returns false when every function
    definition among them has a qualified name other than the name. When
    all those parents have names it returns, and returns true exactly
    when the callee is identified as the name. *)
Theorem is_function_named_in_source_order (func : node) (name : string) :
  (_is_function_named func name = ret true <->
   as_string func = name \/ stops_with name (_infer func) (ret name)) /\
  (forall e, _is_function_named func name = raise e <->
             as_string func <> name /\
             stops_with name (_infer func) (raise e)) /\
  (_is_function_named func name = ret false <->
   as_string func <> name /\ passes name (_infer func)) /\
  (named_parents (_infer func) ->
   exists b,
     _is_function_named func name = ret b /\
     (b = true <-> identified_as func name)) /\
  (_is_function_named func name = ret true -> identified_as func name).
Proof.
  destruct (_is_function_named_ends func name) as [T [R F]].
  split; [exact T|]. split; [exact R|]. split; [exact F|].
  split; [apply _is_function_named_named|apply _is_function_named_true].
Qed.

Lemma is_function_named_in_source_order_witness :
  _is_function_named
    (Samples.expr Name "save_frame" (Samples.one MoreSamples.core_save_frame))
    "_stbt.core.save_frame" = ret true /\
  _is_function_named
    (Samples.expr Name "bind"
                  (Samples.two MoreSamples.load_under_if
                               MoreSamples.functools_partial))
    "functools.partial" = raise AttributeError /\
  _is_function_named
    (Samples.expr Name "bind"
                  (Samples.two MoreSamples.functools_partial
                               MoreSamples.load_under_if))
    "functools.partial" = ret true.
Proof.
  split; [|split].
  - apply is_function_named_in_source_order. right.
    exists [], MoreSamples.core_save_frame, [].
    split; [reflexivity|]. split; [intros d []|now split].
  - apply is_function_named_in_source_order. split; [discriminate|].
    exists [], MoreSamples.load_under_if, [MoreSamples.functools_partial].
    split; [reflexivity|]. split; [intros d []|now split].
  - apply is_function_named_in_source_order. right.
    exists [], MoreSamples.functools_partial, [MoreSamples.load_under_if].
    split; [reflexivity|]. split; [intros d []|now split].
Defined.
(* ===================================================================== *)
(** * [_file_exists] *)
(* ===================================================================== *)

Lemma upto_last_slash_none (b : list ascii) :
  ~ In OsPath.slash b -> OsPath.upto_last_slash b = [].
Proof.
  induction b as [|c b IH]; intros H; simpl; [reflexivity|].
  destruct (Ascii.eqb_spec c OsPath.slash) as [->|N].
  - exfalso. apply H. now left.
  - rewrite IH; [reflexivity|]. intros Hin. apply H. now right.
Qed.

Lemma upto_last_slash_app (a b : list ascii) :
  ~ In OsPath.slash b ->
  OsPath.upto_last_slash (a ++ OsPath.slash :: b) = a ++ [OsPath.slash].
Proof.
  intros H. induction a as [|c a IH]; simpl.
  - now rewrite (upto_last_slash_none _ H).
  - rewrite IH. destruct (Ascii.eqb c OsPath.slash); [reflexivity|].
    now destruct a.
Qed.

Lemma rstrip_slash_keeps (x : list ascii) (c : ascii) :
  c <> OsPath.slash -> OsPath.rstrip_slash (x ++ [c]) = x ++ [c].
Proof.
  intros N. induction x as [|y x IH]; simpl.
  - destruct (Ascii.eqb_spec c OsPath.slash); [contradiction|reflexivity].
  - rewrite IH. now destruct (x ++ [c]) eqn:E; [destruct x; discriminate E|].
Qed.

Lemma rstrip_slash_last (l : list ascii) :
  OsPath.rstrip_slash (l ++ [OsPath.slash]) = OsPath.rstrip_slash l.
Proof.
  induction l as [|y l IH]; simpl; [reflexivity|]. now rewrite IH.
Qed.

(** A non-empty path that does not end with a slash. *)
Lemma ends_without_slash (d : string) :
  d <> "" -> OsPath.ends_with_slash d = false ->
  exists x c, chars d = x ++ [c] /\ c <> OsPath.slash.
Proof.
  unfold OsPath.ends_with_slash. intros N E.
  destruct (rev (chars d)) as [|c r] eqn:R.
  - exfalso. apply N. apply chars_inj.
    apply (f_equal (@rev ascii)) in R. now rewrite rev_involutive in R.
  - exists (rev r), c. split.
    + apply (f_equal (@rev ascii)) in R. now rewrite rev_involutive in R.
    + intros ->. now rewrite Ascii.eqb_refl in E.
Qed.

Lemma dirname_of_file (d base : string) :
  d <> "" -> OsPath.ends_with_slash d = false ->
  char_in OsPath.slash base = false ->
  OsPath.dirname (d ++ "/" ++ base) = d.
Proof.
  intros N E B. apply char_in_false in B.
  destruct (ends_without_slash d N E) as [x [c [X C]]].
  unfold OsPath.dirname. rewrite !chars_app.
  change (chars "/" ++ chars base) with (OsPath.slash :: chars base).
  rewrite (upto_last_slash_app _ _ B), X.
  destruct ((x ++ [c]) ++ [OsPath.slash]) as [|h t] eqn:L;
    [destruct x; discriminate L|].
  rewrite <- L.
  replace (forallb (Ascii.eqb OsPath.slash) ((x ++ [c]) ++ [OsPath.slash]))
    with false.
  - rewrite rstrip_slash_last, (rstrip_slash_keeps _ _ C), <- X.
    apply string_of_chars.
  - symmetry. apply not_true_is_false. intros Q.
    rewrite forallb_forall in Q. apply C. symmetry. apply Ascii.eqb_eq.
    apply Q. apply in_or_app. left. apply in_or_app. right. now left.
Qed.

(** X4: when the module's file is [d/base] ([base] without a slash, [d]
    not empty and not ending with a slash), a literal that does not start
    with a slash is looked up as [d/filename]: beside the module that
    contains it. *)
Theorem file_looked_up_beside_module (isfile : filesystem)
        (filename : string) (n : node) (d base : string) :
  n_file (root n) = (d ++ "/" ++ base)%string ->
  d <> "" ->
  OsPath.ends_with_slash d = false ->
  char_in OsPath.slash base = false ->
  OsPath.starts_with_slash filename = false ->
  _file_exists isfile filename n = isfile (d ++ "/" ++ filename)%string.
Proof.
  intros F N E B S. unfold _file_exists.
  rewrite F, (dirname_of_file _ _ N E B). unfold OsPath.join.
  rewrite S, E. destruct (String.eqb_spec d ""); [contradiction|].
  cbn [orb]. now destruct (isfile _).
Qed.

Lemma file_looked_up_beside_module_witness :
  n_file (root Samples.missing_png) = "/tests/test.py" /\
  _file_exists (Samples.only "/tests/missing.png") "missing.png"
               Samples.missing_png = true /\
  _file_exists (Samples.only "/missing.png") "missing.png"
               Samples.missing_png = false.
Proof.
  split; [reflexivity|]. split.
  - now rewrite (file_looked_up_beside_module _ "missing.png"
                   Samples.missing_png "/tests" "test.py" eq_refl).
  - now rewrite (file_looked_up_beside_module _ "missing.png"
                   Samples.missing_png "/tests" "test.py" eq_refl).
Defined.

(** X5: the other cases of the lookup. A literal that starts with a slash
    is looked up as it stands, wherever the module is; so is any literal
    when the module's file name has no directory part; and for a module
    directly under the root directory a relative literal is looked up
    under the root. *)
Theorem file_lookup_edge_cases (isfile : filesystem) (filename : string)
        (n : node) :
  (OsPath.starts_with_slash filename = true ->
   _file_exists isfile filename n = isfile filename) /\
  (char_in OsPath.slash (n_file (root n)) = false ->
   _file_exists isfile filename n = isfile filename) /\
  (forall base,
      n_file (root n) = ("/" ++ base)%string ->
      char_in OsPath.slash base = false ->
      OsPath.starts_with_slash filename = false ->
      _file_exists isfile filename n = isfile ("/" ++ filename)%string).
Proof.
  unfold _file_exists. split; [|split].
  - intros S. unfold OsPath.join. rewrite S. now destruct (isfile _).
  - intros H. apply char_in_false in H.
    unfold OsPath.dirname. rewrite (upto_last_slash_none _ H).
    unfold OsPath.join. cbn [string_of_list_ascii String.eqb orb].
    destruct (OsPath.starts_with_slash filename); now destruct (isfile _).
  - intros base F B S. apply char_in_false in B.
    rewrite F. unfold OsPath.dirname. rewrite chars_app.
    change (chars "/" ++ chars base) with ([] ++ OsPath.slash :: chars base).
    rewrite (upto_last_slash_app [] _ B).
    match goal with
    | |- context [OsPath.join ?dir filename] => change dir with "/"%string
    end.
    unfold OsPath.join. rewrite S. cbn. now destruct (isfile _).
Qed.


(* ===================================================================== *)
(** * What a visit adds, whatever was collected before *)
(* ===================================================================== *)

(** X6: whether a visit returns or raises, and the messages it adds, do
    not depend on the messages collected so far, which are kept in front
    of the added ones unchanged; every added message is attached to the
    visited node; and they come in the order of the rules: E7001, E7002,
    E7003, E7004. *)
Theorem visit_adds_independently (isfile : filesystem) (n : node) :
  exists r emitted,
    (forall self, visit isfile self n = (r, self ++ emitted)) /\
    (forall m, In m emitted -> msg_node m = n) /\
    emitted = of_rule E7001 emitted ++ of_rule E7002 emitted ++
              of_rule E7003 emitted ++ of_rule E7004 emitted.
Proof.
  unfold visit.
  destruct (n_kind n) as [ | | | | | | | | | | |func args kw| |v| ] eqn:K;
    try (exists (ret tt), [];
         split; [intros self; unfold done; now rewrite app_nil_r|];
         split; [intros m []|reflexivity]).
  - exists (match wait_until_messages n func args with
            | inr _ => ret tt
            | inl e => raise e
            end), (call_messages n func args kw).
    split; [intros self; now apply visit_callfunc_pair|]. split.
    + intros m H. unfold call_messages in H.
      apply in_app_or in H. destruct H as [H|H].
      * now rewrite (unused_return_ids _ _ _ H).
      * destruct (wait_until_messages n func args) as [e|added] eqn:W;
          [contradiction|].
        apply in_app_or in H. destruct H as [H|H].
        -- destruct (wait_until_ids _ _ _ _ _ W H) as [a [r [_ [_ ->]]]].
           reflexivity.
        -- now rewrite (frame_ids _ _ _ _ _ H).
    + destruct (of_rule_call n func args kw) as [R1 [R2 [R3 R4]]].
      cbv zeta in R1, R2, R3, R4. rewrite R1, R2, R3, R4.
      unfold call_messages.
      now destruct (wait_until_messages n func args).
  - destruct v as [s| | | ].
    + destruct (search png_re s && negb (char_in newline s) &&
                negb (_is_calculated_value n) && negb (search star_re s) &&
                negb (_is_whitelisted_name s)) eqn:G.
      * destruct (_in_whitelisted_functions n) as [e|w] eqn:W.
        -- exists (raise e), []. split; [|split; [intros m []|reflexivity]].
           intros self. rewrite (visit_const_str _ _ _ _ K), G, W.
           unfold failed. now rewrite app_nil_r.
        -- destruct (negb w && negb (_file_exists isfile s n)) eqn:F.
           ++ exists (ret tt), [mkMessage E7001 n s]. split; [|split].
              ** intros self. now rewrite (visit_const_str _ _ _ _ K), G, W, F.
              ** now intros m [<-|[]].
              ** reflexivity.
           ++ exists (ret tt), [].
              split; [|split; [intros m []|reflexivity]].
              intros self. rewrite (visit_const_str _ _ _ _ K), G, W, F.
              unfold done. now rewrite app_nil_r.
      * exists (ret tt), []. split; [|split; [intros m []|reflexivity]].
        intros self. rewrite (visit_const_str _ _ _ _ K), G.
        unfold done. now rewrite app_nil_r.
    + exists (ret tt), []. unfold visit_const. rewrite K.
      split; [intros self; unfold done; now rewrite app_nil_r|].
      split; [intros m []|reflexivity].
    + exists (ret tt), []. unfold visit_const. rewrite K.
      split; [intros self; unfold done; now rewrite app_nil_r|].
      split; [intros m []|reflexivity].
    + exists (ret tt), []. unfold visit_const. rewrite K.
      split; [intros self; unfold done; now rewrite app_nil_r|].
      split; [intros m []|reflexivity].
Qed.
(* ===================================================================== *)
(** * E7002 and E7003: the exact conditions *)
(* ===================================================================== *)

Lemma str_end_iff (w : string) (p : option ascii) (suf : list ascii) :
  rmatch (Str w) p suf (fun q t => rmatch EndAnchor q t accept) = true <->
  suf = chars w \/ suf = chars w ++ [newline].
Proof.
  cbn [rmatch]. split.
  - destruct (strip_prefix (chars w) suf) as [rest|] eqn:E; [|discriminate].
    apply strip_prefix_inv in E. subst suf.
    destruct rest as [|c [|d rest]]; [|  |discriminate].
    + intros _. left. now rewrite app_nil_r.
    + intros H. apply andb_true_iff in H. destruct H as [H _].
      apply Ascii.eqb_eq in H. subst c. now right.
  - intros [->| ->].
    + rewrite <- (app_nil_r (chars w)) at 2. now rewrite strip_prefix_app.
    + rewrite strip_prefix_app. now rewrite Ascii.eqb_refl.
Qed.

Lemma search_unused_return_iff (s : string) :
  search unused_return_re s = true <-> matches_return_value_name s.
Proof.
  unfold search, matches_return_value_name, word_start, last_char. split.
  - intros H. apply search_from_elim in H.
    destruct H as [pre [suf [E M]]].
    set (P := last (map Some pre) None) in *.
    set (R := fun w => rmatch (Str w) P suf
                              (fun q t => rmatch EndAnchor q t accept)).
    change (xorb (is_word_opt P) (is_word_opt (hd_error suf)) &&
            (R "is_screen_black" || (R "match" || (R "match_text" ||
             (R "ocr" || R "wait_until")))) = true) in M.
    apply andb_true_iff in M. destruct M as [B M].
    assert (W : exists w, In w return_value_names /\ R w = true).
    { repeat (apply orb_true_iff in M; destruct M as [M|M]);
        eexists; (split; [|exact M]); simpl; tauto. }
    destruct W as [w [Hw Rw]]. subst R. cbv beta in Rw.
    apply str_end_iff in Rw.
    assert (T : exists tail, suf = chars w ++ chars tail /\
                             (tail = "" \/ tail = String newline "")).
    { destruct Rw as [->| ->].
      - exists "". split; [now rewrite app_nil_r|now left].
      - exists (String newline ""). split; [reflexivity|now right]. }
    destruct T as [tail [-> T]].
    exists (string_of_list_ascii pre), w, tail. split; [|split; [|split]].
    + apply chars_inj. now rewrite E, !chars_app, chars_of_string.
    + exact Hw.
    + rewrite chars_of_string. fold P.
      assert (F : is_word_opt (hd_error (chars w ++ chars tail)) = true).
      { simpl in Hw.
        destruct Hw as [<-|[<-|[<-|[<-|[<-|[]]]]]]; reflexivity. }
      rewrite F in B. now destruct (is_word_opt P).
    + exact T.
  - intros [pre [w [tail [-> [Hin [Hb T]]]]]].
    rewrite chars_app. apply search_from_intro.
    apply negb_true_iff in Hb.
    unfold unused_return_re. cbn [rmatch]. rewrite Hb.
    simpl in Hin.
    destruct T as [->| ->];
      destruct Hin as [<-|[<-|[<-|[<-|[<-|[]]]]]]; reflexivity.
Qed.

Lemma filter_none {A : Type} (P : A -> bool) (l : list A) :
  (forall x, In x l -> P x = false) -> filter P l = [].
Proof.
  induction l as [|x l IH]; intros H; simpl; [reflexivity|].
  rewrite (H x (or_introl eq_refl)). apply IH.
  intros y Hy. apply H. now right.
Qed.


(** X7: on a call, E7002 messages are added if and only if the callee's
    text ends with one of the five names as a whole word, the parent is an
    expression statement, and some resolved definition of the callee has
    root module [stbt] or [_stbt.core]; a function of the same name that
    resolves elsewhere is never reported. Every E7002 message carries the
    callee's text. This holds of the messages added whether the visit then
    returns or raises. *)
Theorem unused_return_exactly (self : StbtChecker) (n func : node)
        (args : list node) (kw : keywords_attr) :
  n_kind n = Call func args kw ->
  exists r emitted,
    visit_callfunc self n = (r, self ++ emitted) /\
    (of_rule E7002 emitted <> [] <->
     matches_return_value_name (as_string func) /\
     isinstance (n_parent n) is_Expr = true /\
     exists d, In d (_infer func) /\
               In (def_root_name d) ["stbt"; "_stbt.core"]) /\
    (forall m, In m (of_rule E7002 emitted) ->
               m = mkMessage E7002 n (as_string func)).
Proof.
  intros K. eexists _, _. split; [exact (visit_callfunc_pair _ _ _ _ _ K)|].
  destruct (of_rule_call n func args kw) as [_ [R2 _]]. cbv zeta in R2.
  rewrite R2.
  split; [|intros m; apply unused_return_ids].
  unfold unused_return_messages. rewrite <- search_unused_return_iff.
  destruct (search unused_return_re (as_string func));
    destruct (isinstance (n_parent n) is_Expr); cbn [andb];
    try (split; [intros H; now contradiction H
                |intros [A [B _]]; discriminate]).
  split.
  - intros H. split; [reflexivity|]. split; [reflexivity|].
    destruct (filter in_stbt (_infer func)) as [|d l] eqn:F;
      [now contradiction H|].
    assert (Hd : In d (filter in_stbt (_infer func))) by (rewrite F; now left).
    apply filter_In in Hd. destruct Hd as [Hd Sd].
    exists d. split; [assumption|]. now apply str_in_In.
  - intros [_ [_ [d [Hd Rd]]]] E.
    assert (Hin : In (mkMessage E7002 n (as_string func))
                     (repeat (mkMessage E7002 n (as_string func))
                             (length (filter in_stbt (_infer func))))).
    { apply (repeat_nonempty_In in_stbt _ d); [assumption|].
      now apply str_in_In. }
    rewrite E in Hin. contradiction.
Qed.

Lemma unused_return_exactly_witness :
  (exists emitted,
      visit_callfunc [] Samples.bare_match = done emitted /\
      of_rule E7002 emitted <> []) /\
  (exists emitted,
      visit_callfunc [] Samples.unresolved_match = done emitted /\
      of_rule E7002 emitted = []) /\
  (exists emitted,
      visit_callfunc [] MoreSamples.wait_until_load =
      failed AttributeError emitted /\
      of_rule E7002 emitted <> []).
Proof.
  split; [|split].
  - destruct (unused_return_exactly [] Samples.bare_match _ _ _ eq_refl)
      as [r [emitted [V [I _]]]].
    assert (E : r = ret tt) by (now inversion V).
    exists emitted. split; [now rewrite V, E|]. apply I. split; [|split].
    + exists "stbt.", "match", "". repeat split; simpl; tauto.
    + reflexivity.
    + exists Samples.core_match. split; [now left|simpl; tauto].
  - destruct (unused_return_exactly [] Samples.unresolved_match _ _ _ eq_refl)
      as [r [emitted [V [I _]]]].
    assert (E : r = ret tt) by (now inversion V).
    exists emitted. split; [now rewrite V, E|].
    destruct (of_rule E7002 emitted) as [|m l] eqn:F; [reflexivity|].
    assert (N : m :: l <> []) by discriminate.
    apply I in N. destruct N as [_ [_ [d [[] _]]]].
  - destruct (unused_return_exactly [] MoreSamples.wait_until_load
                _ _ _ eq_refl) as [r [emitted [V [I _]]]].
    assert (E : r = raise AttributeError) by (now inversion V).
    exists emitted. split; [now rewrite V, E|]. apply I. split; [|split].
    + exists "stbt.", "wait_until", "". repeat split; simpl; tauto.
    + reflexivity.
    + exists Samples.core_wait_until. split; [now left|simpl; tauto].
Defined.

(** X8: on a call, an E7003 message is added if and only if the callee's
    text contains [wait_until] at the start of a word, the call has a
    first argument and [_is_callable] returns false on it; the message
    carries that argument's text. The visit raises if and only if the
    callee's text contains [wait_until] at the start of a word, the call
    has a first argument and [_is_callable] raises on it, and then no
    E7003 message is added. A call without arguments never gets one. *)
Theorem wait_until_exactly (self : StbtChecker) (n func : node)
        (args : list node) (kw : keywords_attr) :
  n_kind n = Call func args kw ->
  exists r emitted,
    visit_callfunc self n = (r, self ++ emitted) /\
    (forall m,
        In m (of_rule E7003 emitted) <->
        has_wait_until_token (as_string func) /\
        exists arg rest,
          args = arg :: rest /\ _is_callable arg = ret false /\
          m = mkMessage E7003 n (as_string arg)) /\
    (forall e,
        r = raise e <->
        has_wait_until_token (as_string func) /\
        exists arg rest, args = arg :: rest /\ _is_callable arg = raise e) /\
    (forall e, r = raise e -> of_rule E7003 emitted = []) /\
    (args = [] -> r = ret tt /\ of_rule E7003 emitted = []).
Proof.
  intros K. eexists _, _. split; [exact (visit_callfunc_pair _ _ _ _ _ K)|].
  destruct (of_rule_call n func args kw) as [_ [_ [R3 _]]]. cbv zeta in R3.
  rewrite R3. split; [|split; [|split]].
  - intros m. rewrite <- search_wait_until_iff. unfold wait_until_messages.
    destruct (search wait_until_re (as_string func)).
    + destruct args as [|arg rest].
      * split; [intros []|]. intros [_ [a [r [E _]]]]. discriminate E.
      * destruct (_is_callable arg) as [e|[|]] eqn:C; cbn [bind ret].
        -- split; [intros []|]. intros [_ [a [r [E [Ca _]]]]].
           inversion E. subst. rewrite C in Ca. discriminate Ca.
        -- split; [intros []|]. intros [_ [a [r [E [Ca _]]]]].
           inversion E. subst. rewrite C in Ca. discriminate Ca.
        -- split.
           ++ intros [<-|[]]. split; [reflexivity|]. now exists arg, rest.
           ++ intros [_ [a [r [E [_ ->]]]]]. inversion E. now left.
    + split; [intros []|]. intros [E _]. discriminate E.
  - intros e. rewrite <- search_wait_until_iff.
    pose proof (wait_until_messages_raise n func args e) as WR.
    destruct (wait_until_messages n func args) as [e'|added].
    + rewrite <- WR. unfold raise. split; intros H; inversion H; reflexivity.
    + rewrite <- WR. split; discriminate.
  - intros e E. now destruct (wait_until_messages n func args).
  - intros ->. unfold wait_until_messages.
    now destruct (search wait_until_re (as_string func)).
Qed.

Lemma wait_until_exactly_witness :
  (exists emitted,
      visit_callfunc [] Samples.wait_until_str = done emitted /\
      In (mkMessage E7003 Samples.wait_until_str "'a.png'")
         (of_rule E7003 emitted)) /\
  (exists emitted,
      visit_callfunc [] MoreSamples.wait_until_load =
      failed AttributeError emitted /\
      of_rule E7003 emitted = []).
Proof.
  split.
  - destruct (wait_until_exactly [] Samples.wait_until_str _ _ _ eq_refl)
      as [r [emitted [V [I _]]]].
    assert (E : r = ret tt) by (now inversion V).
    exists emitted. split; [now rewrite V, E|]. apply I. split.
    + exists "stbt.", "". now split.
    + eexists _, _. split; [reflexivity|]. now split.
  - destruct (wait_until_exactly [] MoreSamples.wait_until_load _ _ _ eq_refl)
      as [r [emitted [V [_ [_ [H _]]]]]].
    assert (E : r = raise AttributeError) by (now inversion V).
    exists emitted. split; [now rewrite V, E|]. exact (H _ E).
Defined.

(** X9: when the first argument of a [wait_until] call cannot be inferred
    at all, what happens follows [_is_function_named] on the argument's
    callee. An argument that is not a call is reported. An argument that
    is a call is not reported when its callee has the text
    [functools.partial] or resolves to a function definition of that
    qualified name met before any whose parent has no name; it is reported
    when its callee has another text and every function definition it
    resolves to has another qualified name; and the visit raises, adding
    no E7003 message, when a function definition whose parent has no name
    is met first. When every function definition the callee resolves to
    has a parent with a name, the visit returns, and the argument is
    reported unless its callee is identified as [functools.partial], by
    its text or by resolution. *)
Theorem wait_until_failed_inference (self : StbtChecker) (n func arg : node)
        (rest : list node) (kw : keywords_attr) :
  n_kind n = Call func (arg :: rest) kw ->
  has_wait_until_token (as_string func) ->
  _infer arg = [] ->
  exists r emitted,
    visit_callfunc self n = (r, self ++ emitted) /\
    (is_Call (n_kind arg) = false ->
     r = ret tt /\
     of_rule E7003 emitted = [mkMessage E7003 n (as_string arg)]) /\
    (forall f a k,
        n_kind arg = Call f a k ->
        r = match _is_function_named f "functools.partial" with
            | inr _ => ret tt
            | inl e => raise e
            end /\
        of_rule E7003 emitted =
          match _is_function_named f "functools.partial" with
          | inr false => [mkMessage E7003 n (as_string arg)]
          | _ => []
          end /\
        (as_string f = "functools.partial" \/
         stops_with "functools.partial" (_infer f) (ret "functools.partial")
         -> r = ret tt /\ of_rule E7003 emitted = []) /\
        (as_string f <> "functools.partial" ->
         passes "functools.partial" (_infer f) ->
         r = ret tt /\
         of_rule E7003 emitted = [mkMessage E7003 n (as_string arg)]) /\
        (forall e,
            as_string f <> "functools.partial" ->
            stops_with "functools.partial" (_infer f) (raise e) ->
            r = raise e /\ of_rule E7003 emitted = []) /\
        (named_parents (_infer f) ->
         r = ret tt /\
         (identified_as f "functools.partial" ->
          of_rule E7003 emitted = []) /\
         (~ identified_as f "functools.partial" ->
          of_rule E7003 emitted = [mkMessage E7003 n (as_string arg)]))).
Proof.
  intros K T I. eexists _, _.
  split; [exact (visit_callfunc_pair _ _ _ _ _ K)|].
  destruct (of_rule_call n func (arg :: rest) kw) as [_ [_ [R3 _]]].
  cbv zeta in R3. rewrite R3. unfold wait_until_messages.
  rewrite (proj2 (search_wait_until_iff _) T), _is_callable_eq, I.
  split.
  - intros C. now destruct (n_kind arg).
  - intros f a k Ka. rewrite Ka.
    destruct (_is_function_named_ends f "functools.partial") as [Tr [R F]].
    split;
      [now destruct (_is_function_named f "functools.partial") as [e|[|]]|].
    split;
      [now destruct (_is_function_named f "functools.partial") as [e|[|]]|].
    split; [|split; [|split]].
    + intros H. apply Tr in H. now rewrite H.
    + intros N P. rewrite (proj2 F (conj N P)). now split.
    + intros e N S. rewrite (proj2 (R e) (conj N S)). now split.
    + intros NP.
      destruct (_is_function_named_named f "functools.partial" NP)
        as [b [E Ib]].
      rewrite E. cbn [bind ret]. split; [reflexivity|]. split.
      * intros H. apply Ib in H. now subst b.
      * intros H. destruct b; [|reflexivity].
        exfalso. apply H. now apply Ib.
Qed.

Lemma wait_until_failed_inference_witness :
  (exists emitted,
      visit_callfunc [] MoreSamples.wait_until_unresolved = done emitted /\
      of_rule E7003 emitted =
      [mkMessage E7003 MoreSamples.wait_until_unresolved "check"]) /\
  (exists emitted,
      visit_callfunc [] MoreSamples.wait_until_partial = done emitted /\
      of_rule E7003 emitted = []) /\
  (exists emitted,
      visit_callfunc [] MoreSamples.wait_until_load =
      failed AttributeError emitted /\
      of_rule E7003 emitted = []).
Proof.
  split; [|split].
  - destruct (wait_until_failed_inference [] MoreSamples.wait_until_unresolved
                _ _ _ _ eq_refl) as [r [emitted [V [H _]]]].
    { exists "", "". now split. }
    { reflexivity. }
    destruct (H eq_refl) as [-> R]. now exists emitted.
  - destruct (wait_until_failed_inference [] MoreSamples.wait_until_partial
                _ _ _ _ eq_refl) as [r [emitted [V [_ H]]]].
    { exists "", "". now split. }
    { reflexivity. }
    destruct (proj1 (proj2 (proj2 (H _ _ _ eq_refl)))) as [-> R];
      [now left|].
    now exists emitted.
  - destruct (wait_until_failed_inference [] MoreSamples.wait_until_load
                _ _ _ _ eq_refl) as [r [emitted [V [_ H]]]].
    { exists "stbt.", "". now split. }
    { reflexivity. }
    destruct (proj1 (proj2 (proj2 (proj2 (proj2 (H _ _ _ eq_refl)))))
                    AttributeError) as [-> R].
    { discriminate. }
    { exists [], MoreSamples.load_under_if, [].
      split; [reflexivity|]. split; [intros d []|now split]. }
    now exists emitted.
Defined.

(* ===================================================================== *)
(** * E7004: when nothing is reported, and the two argument layouts *)
(* ===================================================================== *)

(** X10: a call gets no E7004 message, whether the visit returns or
    raises, when it is not inside a [FrameObject] class, or not inside a
    property, or when no function definition that its callee resolves to
    has a parameter named [frame]. *)
Theorem frame_missing_never (self : StbtChecker) (n func : node)
        (args : list node) (kw : keywords_attr) :
  n_kind n = Call func args kw ->
  _in_frameobject n = false \/ _in_property n = false \/
  (forall d, In d (_infer func) -> isinstance_FunctionDef d = true ->
             ~ In "frame" (def_argnames d)) ->
  exists r emitted,
    visit_callfunc self n = (r, self ++ emitted) /\
    of_rule E7004 emitted = [].
Proof.
  intros K H. eexists _, _.
  split; [exact (visit_callfunc_pair _ _ _ _ _ K)|].
  destruct (of_rule_call n func args kw) as [_ [_ [_ R4]]]. cbv zeta in R4.
  rewrite R4. destruct (wait_until_messages n func args); [reflexivity|].
  unfold frame_messages. destruct H as [H|[H|H]].
  - now rewrite H.
  - now rewrite H, andb_false_r.
  - destruct (_ && _); [|reflexivity].
    rewrite filter_none; [reflexivity|].
    intros d Hd. unfold frame_not_supplied.
    destruct (isinstance_FunctionDef d) eqn:F; [|reflexivity].
    rewrite index_missing; [reflexivity|].
    apply not_true_is_false. intros S. apply str_in_In in S.
    exact (H d Hd F S).
Qed.

Lemma frame_missing_never_witness :
  _in_property Samples.bare_match = false /\
  exists r emitted,
    visit_callfunc [] Samples.bare_match = (r, emitted) /\
    of_rule E7004 emitted = [].
Proof.
  split; [reflexivity|].
  exact (frame_missing_never [] Samples.bare_match _ _ _ eq_refl
           (or_introl eq_refl)).
Defined.

Lemma positional_app (ps ks : list node) :
  (forall a, In a ps -> is_Keyword (n_kind a) = false) ->
  (forall a, In a ks -> is_Keyword (n_kind a) = true) ->
  positional (ps ++ ks) = ps.
Proof.
  intros P Q. unfold positional. rewrite filter_app.
  rewrite (filter_none _ ks), app_nil_r.
  - induction ps as [|a ps IH]; simpl; [reflexivity|].
    rewrite (P a (or_introl eq_refl)). cbn [negb]. f_equal.
    apply IH. intros b Hb. apply P. now right.
  - intros a Ha. now rewrite (Q a Ha).
Qed.

Lemma keyword_names_app (ps ks : list node) :
  (forall a, In a ps -> is_Keyword (n_kind a) = false) ->
  (forall a, In a ks -> is_Keyword (n_kind a) = true) ->
  keyword_names (ps ++ ks) NoKeywordsAttr = map keyword_arg ks.
Proof.
  intros P Q. unfold keyword_names. rewrite flat_map_app.
  replace (flat_map _ ps) with (@nil (option string)).
  - simpl. induction ks as [|a ks IH]; simpl; [reflexivity|].
    rewrite IH by (intros b Hb; apply Q; now right).
    unfold keyword_arg. specialize (Q a (or_introl eq_refl)).
    now destruct (n_kind a).
  - symmetry. induction ps as [|a ps IH]; simpl; [reflexivity|].
    rewrite IH by (intros b Hb; apply P; now right).
    specialize (P a (or_introl eq_refl)). now destruct (n_kind a).
Qed.

(** [_is_callable] returns on a keyword argument node. *)
Lemma _is_callable_keyword (a : node) :
  is_Keyword (n_kind a) = true -> exists b, _is_callable a = ret b.
Proof.
  intros H. rewrite _is_callable_eq.
  destruct (_infer a); [|now eexists].
  destruct (n_kind a); try discriminate H. now eexists.
Qed.

(** The E7003 check ends the same way in the two layouts of a call's
    arguments. *)
Lemma wait_until_layouts (n1 n2 func : node) (ps ks : list node) :
  (forall a, In a ks -> is_Keyword (n_kind a) = true) ->
  match wait_until_messages n1 func (ps ++ ks) with
  | inr _ => @ret unit tt
  | inl e => raise e
  end =
  match wait_until_messages n2 func ps with
  | inr _ => ret tt
  | inl e => raise e
  end.
Proof.
  intros Q. unfold wait_until_messages.
  destruct (search wait_until_re (as_string func)); [|reflexivity].
  destruct ps as [|p ps]; cbn [app].
  - destruct ks as [|k ks]; [reflexivity|].
    destruct (_is_callable_keyword k (Q k (or_introl eq_refl))) as [b ->].
    reflexivity.
  - now destruct (_is_callable p).
Qed.

(** X11: the two layouts of a call's arguments end the visit the same
    way and give the same E7004 messages. A call whose argument list
    holds the positional arguments followed by keyword nodes and that has
    no [keywords] attribute (astroid before 1.4) is treated like the call
    whose argument list holds the positional arguments only and whose
    [keywords] holds the keyword names. *)
Theorem keyword_layouts_agree (self : StbtChecker) (func : node)
        (ps ks : list node) (parent : option node) (text : string)
        (g : generator) (file : string) :
  (forall a, In a ps -> is_Keyword (n_kind a) = false) ->
  (forall a, In a ks -> is_Keyword (n_kind a) = true) ->
  exists r before since,
    visit_callfunc self
      (mkNode (Call func (ps ++ ks) NoKeywordsAttr) parent text g file) =
    (r, self ++ before) /\
    visit_callfunc self
      (mkNode (Call func ps (Keywords (Some (map keyword_arg ks))))
              parent text g file) =
    (r, self ++ since) /\
    map msg_args (of_rule E7004 before) = map msg_args (of_rule E7004 since).
Proof.
  intros P Q.
  set (n1 := mkNode (Call func (ps ++ ks) NoKeywordsAttr) parent text g file).
  set (n2 := mkNode (Call func ps (Keywords (Some (map keyword_arg ks))))
                    parent text g file).
  pose proof (visit_callfunc_pair self n1 func (ps ++ ks) NoKeywordsAttr
                                  eq_refl) as V.
  pose proof (visit_callfunc_pair self n2 func ps
                                  (Keywords (Some (map keyword_arg ks)))
                                  eq_refl) as V'.
  pose proof (wait_until_layouts n1 n2 func ps ks Q) as L.
  rewrite L in V.
  eexists _, _, _. split; [exact V|]. split; [exact V'|]. clear V V'.
  destruct (of_rule_call n1 func (ps ++ ks) NoKeywordsAttr)
    as [_ [_ [_ R]]].
  destruct (of_rule_call n2 func ps (Keywords (Some (map keyword_arg ks))))
    as [_ [_ [_ R']]].
  cbv zeta in R, R'. rewrite R, R'.
  destruct (wait_until_messages n1 func (ps ++ ks)) as [e1|a1];
    destruct (wait_until_messages n2 func ps) as [e2|a2];
    try discriminate L; [reflexivity|].
  unfold frame_messages. subst n1 n2.
  cbn [_in_frameobject _in_property as_string].
  destruct (_ && _); [|reflexivity].
  rewrite !map_repeat. cbn [msg_args]. f_equal. f_equal.
  apply filter_ext. intros d. unfold frame_not_supplied.
  rewrite (positional_app _ _ P Q), (keyword_names_app _ _ P Q).
  assert (E : positional ps = ps).
  { rewrite <- (app_nil_r ps) at 1. apply positional_app; [exact P|].
    intros a []. }
  rewrite E. reflexivity.
Qed.

Lemma keyword_layouts_agree_witness :
  exists r before since,
    visit_callfunc []
      (mkNode (Call (Samples.expr Attribute "stbt.match"
                                  (Samples.one Samples.core_match))
                    ([Samples.str_const "a.png" None] ++
                     [MoreSamples.frame_keyword]) NoKeywordsAttr)
              (Some Samples.return_in_property)
              "stbt.match('a.png', frame=self._frame)"
              (Yield YES StopIteration) Samples.test_py) = (r, before) /\
    visit_callfunc [] Samples.match_with_frame = (r, since) /\
    map msg_args (of_rule E7004 before) = map msg_args (of_rule E7004 since).
Proof.
  apply (keyword_layouts_agree []
           (Samples.expr Attribute "stbt.match"
                         (Samples.one Samples.core_match))
           [Samples.str_const "a.png" None] [MoreSamples.frame_keyword]).
  - intros a [<-|[]]. reflexivity.
  - intros a [<-|[]]. reflexivity.
Defined.


(* ===================================================================== *)
(** * Everything inside a property, everything inside a class *)
(* ===================================================================== *)

Lemma lineage_trans (n p m : node) :
  In p (lineage n) -> In m (lineage p) -> In m (lineage n).
Proof.
  induction n as [k t g f|k q t g f IH] using node_parent_ind;
    cbn [lineage]; intros [<-|H] Hm; try assumption; try contradiction.
  right. now apply IH.
Qed.

(** X12: being in a property, and being in a [FrameObject] class, is
    inherited down the tree: when a node or one of its ancestors is in a
    property (in such a class), so is the node, however deeply nested in
    other functions, lambdas or classes. *)
Theorem enclosing_context_inherited (n p : node) :
  In p (lineage n) ->
  (_in_property p = true -> _in_property n = true) /\
  (_in_frameobject p = true -> _in_frameobject n = true).
Proof.
  intros Hp. split; intros H.
  - apply _in_property_iff in H. destruct H as [m [ds [Hm H]]].
    apply _in_property_iff. exists m, ds.
    split; [now apply (lineage_trans n p m)|assumption].
  - apply _in_frameobject_iff in H. destruct H as [m [ds [Hm H]]].
    apply _in_frameobject_iff. exists m, ds.
    split; [now apply (lineage_trans n p m)|assumption].
Qed.

Lemma enclosing_context_inherited_witness :
  In Samples.property_def (lineage Samples.match_in_plain_class) /\
  _in_property Samples.match_in_plain_class = true /\
  _in_frameobject Samples.match_in_plain_class = true.
Proof.
  assert (H : In Samples.property_def (lineage Samples.match_in_plain_class)).
  { simpl. tauto. }
  destruct (enclosing_context_inherited Samples.match_in_plain_class
              Samples.property_def H) as [A B].
  split; [exact H|]. split; [now apply A|now apply B].
Defined.
